(** * BaseTranslator (modules/translators/base.py): a shallow embedding

    The translator base class of the repository is embedded as pure
    Rocq functions over a record of the instance's attributes.  Methods
    that mutate [self], raise, or call out to a backend or to a hook
    live in a small monad [M] threading the instance, the raised
    exception and the list of external calls made so far. *)

From Stdlib Require Import List NArith ZArith Bool String Ascii Arith Lia PrimFloat.
Import ListNotations.

(** ** Python strings *)

(** A Python 3 [str] is a sequence of Unicode code points; a code point
    is kept as its number, so that [strip] can follow Python's own
    notion of white space on non-ASCII text as well. *)
Module PyStr.

Definition char := N.
Definition str := list char.

(** ASCII literals of the source, as code points. *)
Definition lit (x : string) : str :=
  map N_of_ascii (list_ascii_of_string x).

Definition LF : char := 10%N.

Fixpoint eqb (a b : str) : bool :=
  match a, b with
  | [], [] => true
  | x :: a', y :: b' => N.eqb x y && eqb a' b'
  | _, _ => false
  end.

(** [x in l] for a list of strings. *)
Fixpoint mem (x : str) (l : list str) : bool :=
  match l with
  | [] => false
  | y :: l' => eqb x y || mem x l'
  end.

(** [str.isspace] on one code point: the characters [lstrip] and
    [rstrip] remove when called without argument. *)
Definition isspace (c : char) : bool :=
  ((9 <=? c) && (c <=? 13) || (28 <=? c) && (c <=? 32)
   || (c =? 133) || (c =? 160) || (c =? 5760)
   || (8192 <=? c) && (c <=? 8202)
   || (c =? 8232) || (c =? 8233) || (c =? 8239) || (c =? 8287)
   || (c =? 12288))%N.

Fixpoint lstrip (s : str) : str :=
  match s with
  | [] => []
  | c :: s' => if isspace c then lstrip s' else s
  end.

Definition rstrip (s : str) : str := rev (lstrip (rev s)).

(** A string with its leading and trailing white space removed. *)
Definition strip (s : str) : str := rstrip (lstrip s).

Fixpoint startswith (p s : str) : bool :=
  match p, s with
  | [], _ => true
  | _ :: _, [] => false
  | x :: p', y :: s' => N.eqb x y && startswith p' s'
  end.

(** [sub in s] for strings. *)
Fixpoint contains (sub s : str) : bool :=
  startswith sub s ||
  match s with
  | [] => false
  | _ :: s' => contains sub s'
  end.

(** [sep.join(l)]. *)
Fixpoint join (sep : str) (l : list str) : str :=
  match l with
  | [] => []
  | x :: l' =>
      match l' with
      | [] => x
      | _ :: _ => x ++ sep ++ join sep l'
      end
  end.

(** Puts one more character in front of the piece being collected. *)
Definition push (c : char) (pieces : list str) : list str :=
  match pieces with
  | [] => [[c]]
  | p :: ps => (c :: p) :: ps
  end.

(** The scan of [s.split(sep)] for a non-empty [sep]: occurrences are
    taken leftmost first and do not overlap; [skip] counts the
    characters of a matched separator still to be passed over. *)
Fixpoint split_go (sep : str) (skip : nat) (s : str) : list str :=
  match s with
  | [] => [[]]
  | c :: s' =>
      match skip with
      | S k => split_go sep k s'
      | O =>
          if startswith sep s
          then [] :: split_go sep (List.length sep - 1) s'
          else push c (split_go sep 0 s')
      end
  end.

(** [s.split(sep)]; [None] is Python's [ValueError: empty separator]. *)
Definition split (sep s : str) : option (list str) :=
  match sep with
  | [] => None
  | _ :: _ => Some (split_go sep 0 s)
  end.

Fixpoint replace_go (old new : str) (skip : nat) (s : str) : str :=
  match s with
  | [] => []
  | c :: s' =>
      match skip with
      | S k => replace_go old new k s'
      | O =>
          if startswith old s
          then new ++ replace_go old new (List.length old - 1) s'
          else c :: replace_go old new 0 s'
      end
  end.

(** [s.replace(old, new)]; an empty [old] matches before every
    character and at the end. *)
Definition replace (old new s : str) : str :=
  match old with
  | [] => new ++ flat_map (fun c => c :: new) s
  | _ :: _ => replace_go old new 0 s
  end.

End PyStr.

Import PyStr.

(** ** The batching codec (textlist2text, text2textlist) *)

Section Codec.

(** [self.textblk_break] *)
Variable textblk_break : str.

Definition textlist2text (text_list : list str) : str :=
  join textblk_break text_list.

(** [self.textblk_break.replace('\n', '') or '\n'] *)
Definition breaker : str :=
  match replace [LF] [] textblk_break with
  | [] => [LF]
  | b => b
  end.

Definition text2textlist (text : str) : option (list str) :=
  match split breaker text with
  | None => None
  | Some text_list => Some (map (fun t => rstrip (lstrip t)) text_list)
  end.

End Codec.

(** The value [__init__] gives to [textblk_break]. *)
Definition default_break : str := [LF] ++ lit "###" ++ [LF].

Definition hashes : str := lit "###".

(** ** Exceptions, values and dictionaries *)

(** The exceptions of [.exceptions] and the built-in ones the methods
    can meet; all of them are instances of Python's [Exception].
    [BackendError] stands for any other [Exception] raised by the code
    of a backend. *)
Inductive exn : Type :=
| MissingTranslatorParams (what : str)
| TranslatorSetupFailure (cause : exn)
| InvalidSourceOrTargetLanguage (arg : str) (message : str)
| AssertionError
| IndexError
| TypeError
| AttributeError
| ValueError
| OverflowError
| KeyError
| BackendError (code : N).

(** [isinstance(e, MissingTranslatorParams)] *)
Definition is_MissingTranslatorParams (e : exn) : bool :=
  match e with
  | MissingTranslatorParams _ => true
  | _ => false
  end.

(** The values a configuration bag holds. *)
#[warnings="-register-all"]
Inductive value : Type :=
| VNone
| VBool (b : bool)
| VInt (z : Z)
| VFloat (f : float)
| VStr (s : str)
| VList (l : list value).

(** Truth value of a configuration value, as [if delay:] tests it. *)
Definition truthy (v : value) : bool :=
  match v with
  | VNone => false
  | VBool b => b
  | VInt z => negb (Z.eqb z 0)
  | VFloat f => negb (PrimFloat.eqb f 0%float)
  | VStr s => match s with [] => false | _ :: _ => true end
  | VList l => match l with [] => false | _ :: _ => true end
  end.

(** A Python [dict] with string keys: bindings in insertion order. *)
Definition dict (V : Type) : Type := list (str * V).

Fixpoint dict_get {V : Type} (d : dict V) (k : str) : option V :=
  match d with
  | [] => None
  | (k', v) :: d' => if PyStr.eqb k k' then Some v else dict_get d' k
  end.

Definition dict_keys {V : Type} (d : dict V) : list str := map fst d.

(** [k in d] *)
Definition dict_has {V : Type} (d : dict V) (k : str) : bool :=
  match dict_get d k with
  | Some _ => true
  | None => false
  end.

Definition LANGMAP_GLOBAL : dict str :=
  [ (lit "Auto", []);
    ([31616; 20307; 20013; 25991]%N, []);
    ([32321; 39636; 20013; 25991]%N, []);
    ([26085; 26412; 35486]%N, []);
    (lit "English", []);
    ([54620; 44397; 50612]%N, []);
    ([84; 105; 7871; 110; 103; 32; 86; 105; 7879; 116]%N, []);
    ([269; 101; 353; 116; 105; 110; 97]%N, []);
    (lit "Nederlands", []);
    ([102; 114; 97; 110; 231; 97; 105; 115]%N, []);
    (lit "Deutsch", []);
    (lit "magyar nyelv", []);
    (lit "italiano", []);
    (lit "polski", []);
    ([112; 111; 114; 116; 117; 103; 117; 234; 115]%N, []);
    ([108; 105; 109; 98; 97; 32; 114; 111; 109; 226; 110; 259]%N, []);
    ([1088; 1091; 1089; 1089; 1082; 1080; 1081; 32;
      1103; 1079; 1099; 1082]%N, []);
    ([101; 115; 112; 97; 241; 111; 108]%N, []);
    ([84; 252; 114; 107; 32; 100; 105; 108; 105]%N, []) ].

(** The display name of traditional Chinese, tested by [_chs2cht]. *)
Definition TRADITIONAL_CHINESE : str := [32321; 39636; 20013; 25991]%N.

(** ** The instance *)

(** A post-processing hook is a Python callable, known here by its
    identity: the bound method [self._chs2cht], or a callable handed in
    by the caller. *)
Inductive callback : Type :=
| Chs2cht
| UserHook (id : nat).

Definition callback_eqb (a b : callback) : bool :=
  match a, b with
  | Chs2cht, Chs2cht => true
  | UserHook i, UserHook j => Nat.eqb i j
  | _, _ => false
  end.

(** [OrderedSet]: the elements in insertion order, none twice. *)
Definition ordered_set : Type := list callback.

Definition oset_mem (cb : callback) (s : ordered_set) : bool :=
  existsb (callback_eqb cb) s.

(** [OrderedSet.add]: appended when absent, ignored when present. *)
Definition oset_add (cb : callback) (s : ordered_set) : ordered_set :=
  if oset_mem cb s then s else s ++ [cb].

(** The attributes of a [BaseTranslator] instance. *)
Record translator : Type := mkTranslator {
  params : dict value;
  name : str;
  textblk_break : str;
  lang_source : str;
  lang_target : str;
  lang_map : dict str;
  postprocess_hooks : ordered_set;
  valid_lang_list : list str
}.

Definition set_params (v : dict value) (t : translator) : translator :=
  mkTranslator v (name t) (textblk_break t) (lang_source t) (lang_target t)
    (lang_map t) (postprocess_hooks t) (valid_lang_list t).
Definition set_name (v : str) (t : translator) : translator :=
  mkTranslator (params t) v (textblk_break t) (lang_source t) (lang_target t)
    (lang_map t) (postprocess_hooks t) (valid_lang_list t).
Definition set_textblk_break (v : str) (t : translator) : translator :=
  mkTranslator (params t) (name t) v (lang_source t) (lang_target t)
    (lang_map t) (postprocess_hooks t) (valid_lang_list t).
Definition set_lang_source (v : str) (t : translator) : translator :=
  mkTranslator (params t) (name t) (textblk_break t) v (lang_target t)
    (lang_map t) (postprocess_hooks t) (valid_lang_list t).
Definition set_lang_target (v : str) (t : translator) : translator :=
  mkTranslator (params t) (name t) (textblk_break t) (lang_source t) v
    (lang_map t) (postprocess_hooks t) (valid_lang_list t).
Definition set_lang_map (v : dict str) (t : translator) : translator :=
  mkTranslator (params t) (name t) (textblk_break t) (lang_source t)
    (lang_target t) v (postprocess_hooks t) (valid_lang_list t).
Definition set_postprocess_hooks (v : ordered_set) (t : translator)
  : translator :=
  mkTranslator (params t) (name t) (textblk_break t) (lang_source t)
    (lang_target t) (lang_map t) v (valid_lang_list t).
Definition set_valid_lang_list (v : list str) (t : translator) : translator :=
  mkTranslator (params t) (name t) (textblk_break t) (lang_source t)
    (lang_target t) (lang_map t) (postprocess_hooks t) v.

(** The object [__init__] receives: no attribute assigned yet. *)
Definition fresh : translator := mkTranslator [] [] [] [] [] [] [] [].

(** The argument and the result of [translate]: [Union[str, List]]. *)
Inductive text : Type :=
| Str (s : str)
| Lst (l : list str).

Definition is_list (t : text) : bool :=
  match t with
  | Str _ => false
  | Lst _ => true
  end.

(** [len(text)] *)
Definition len (t : text) : nat :=
  match t with
  | Str s => List.length s
  | Lst l => List.length l
  end.

(** ** The monad of the methods *)

(** What a method does beyond its own code: it calls the backend's
    [_translate], calls a hook, runs the join or the split. *)
Inductive event : Type :=
| CallBackend (arg : text)
| CallHook (cb : callback) (arg : str)
| DoJoin (parts : list str)
| DoSplit (joined : str).

(** Running a method on an instance gives a returned value or a raised
    exception, the instance as the method left it, and the calls made,
    oldest first. *)
Record run (A : Type) : Type := mkRun {
  outcome : exn + A;
  self_after : translator;
  calls : list event
}.
Arguments mkRun {A} _ _ _.
Arguments outcome {A} _.
Arguments self_after {A} _.
Arguments calls {A} _.

Definition M (A : Type) : Type := translator -> run A.

Definition ret {A : Type} (a : A) : M A :=
  fun self => mkRun (inr a) self [].

Definition raise {A : Type} (e : exn) : M A :=
  fun self => mkRun (inl e) self [].

Definition bind {A B : Type} (m : M A) (k : A -> M B) : M B :=
  fun self =>
    let r := m self in
    match outcome r with
    | inl e => mkRun (inl e) (self_after r) (calls r)
    | inr a =>
        let r' := k a (self_after r) in
        mkRun (outcome r') (self_after r') (calls r ++ calls r')
    end.

(** [try: body except Exception as e: handler e] *)
Definition try_except {A : Type} (body : M A) (handler : exn -> M A) : M A :=
  fun self =>
    let r := body self in
    match outcome r with
    | inl e =>
        let r' := handler e (self_after r) in
        mkRun (outcome r') (self_after r') (calls r ++ calls r')
    | inr a => r
    end.

Definition get : M translator := fun self => mkRun (inr self) self [].

Definition modify (f : translator -> translator) : M unit :=
  fun self => mkRun (inr tt) (f self) [].

Definition tell (e : event) : M unit :=
  fun self => mkRun (inr tt) self [e].

Definition lift {A : Type} (r : exn + A) : M A :=
  match r with
  | inl e => raise e
  | inr a => ret a
  end.

Declare Scope py_scope.
Delimit Scope py_scope with py.
Notation "x <- m ;; k" := (bind m (fun x => k))
  (at level 100, m at next level, right associativity) : py_scope.
Notation "m ;;; k" := (bind m (fun _ => k))
  (at level 100, right associativity) : py_scope.
Open Scope py_scope.

(** [for x in l: body x] *)
Fixpoint for_each {A : Type} (l : list A) (body : A -> M unit) : M unit :=
  match l with
  | [] => ret tt
  | x :: l' => body x ;;; for_each l' body
  end.

(** ** The backend and the environment *)

(** What a concrete translator class supplies: its class attributes and
    the two abstract methods.  [_setup_translator] may assign any
    attribute of [self] or raise; [_translate] returns a string, a list
    or [None], or raises. *)
Record backend : Type := mkBackend {
  cls : nat;
  concate_text : bool;
  cht_require_convert : bool;
  _setup_translator : translator -> exn + translator;
  _translate : translator -> text -> exn + option text
}.

Section Methods.

(** [utils.io_utils.text_is_empty], whose code is outside this file. *)
Variable text_is_empty : text -> bool.

(** [.hooks.chs2cht], the external script conversion. *)
Variable chs2cht : str -> str.

(** The callables registered by callers, by identity; a hook is a
    function from fragment to fragment. *)
Variable user_hook : nat -> str -> str.

(** [TRANSLATORS.module_dict]: registered names and their classes. *)
Variable module_dict : list (str * nat).

(** [float(n)] for an [int] ([None]: [OverflowError]) and [float(s)]
    for a [str] ([None]: [ValueError]). *)
Variable float_of_int : Z -> option float.
Variable float_of_str : str -> option float.

Variable B : backend.

(** [float(v)] *)
Definition py_float (v : value) : exn + float :=
  match v with
  | VNone => inl TypeError
  | VBool b => inr (if b then 1%float else 0%float)
  | VInt z =>
      match float_of_int z with
      | Some f => inr f
      | None => inl OverflowError
      end
  | VFloat f => inr f
  | VStr s =>
      match float_of_str s with
      | Some f => inr f
      | None => inl ValueError
      end
  | VList _ => inl TypeError
  end.

Definition supported_languages (self : translator) : list str :=
  valid_lang_list self.

Definition supported_tgt_list (self : translator) : list str :=
  valid_lang_list self.

Definition supported_src_list (self : translator) : list str :=
  valid_lang_list self.

(** The decorator: the setter runs only after the language was found
    in the list chosen by [check_type]. *)
Definition check_language_support (check_type : str)
    (set_lang_method : str -> M unit) (lang : str) : M unit :=
  self <- get ;;
  let supported_lang_list :=
    if PyStr.eqb check_type (lit "source")
    then supported_src_list self
    else supported_tgt_list self in
  if negb (mem lang supported_lang_list)
  then
    let msg := join [LF] supported_lang_list in
    raise (InvalidSourceOrTargetLanguage
             (lit "Invalid " ++ check_type ++ lit ": " ++ lang ++ [LF]) msg)
  else set_lang_method lang.

Definition set_source : str -> M unit :=
  check_language_support (lit "source")
    (fun lang => modify (set_lang_source lang)).

Definition set_target : str -> M unit :=
  check_language_support (lit "target")
    (fun lang => modify (set_lang_target lang)).

(** The argument of [register_postprocess_hooks]. *)
Inductive callbacks_arg : Type :=
| ArgNone
| ArgCallable (cb : callback)
| ArgList (l : list callback).

Definition register_postprocess_hooks (callbacks : callbacks_arg) : M unit :=
  match callbacks with
  | ArgNone => ret tt
  | ArgCallable cb =>
      for_each [cb] (fun callback =>
        modify (fun self =>
          set_postprocess_hooks (oset_add callback (postprocess_hooks self)) self))
  | ArgList l =>
      for_each l (fun callback =>
        modify (fun self =>
          set_postprocess_hooks (oset_add callback (postprocess_hooks self)) self))
  end.

Definition setup_translator : M unit :=
  fun self =>
    match _setup_translator B self with
    | inl e => mkRun (inl e) self []
    | inr self' => mkRun (inr tt) self' []
    end.

(** [[lang for lang in self.lang_map if self.lang_map[lang] != '']] *)
Definition valid_langs (lang_map : dict str) : list str :=
  filter (fun lang =>
            match dict_get lang_map lang with
            | Some code => negb (PyStr.eqb code [])
            | None => false
            end)
         (dict_keys lang_map).

(** [l[0]] *)
Definition first_item (l : list str) : M str :=
  match l with
  | [] => raise IndexError
  | x :: _ => ret x
  end.

(** The loop of [__init__] over the registry: the first name whose
    class is this one. *)
Fixpoint registered_name (reg : list (str * nat)) (default : str) : str :=
  match reg with
  | [] => default
  | (key, c) :: reg' =>
      if Nat.eqb c (cls B) then key else registered_name reg' default
  end.

(** Modelled from the spec: [BaseModule.__init__] is outside this
    file; it keeps the configuration bag passed at construction as
    [self.params]. *)
Definition BaseModule_init (kwargs : dict value) : M unit :=
  modify (set_params kwargs).

Definition __init__ (lang_source lang_target : str)
    (raise_unsupported_lang : bool) (kwargs : dict value) : M unit :=
  BaseModule_init kwargs ;;;
  modify (set_name []) ;;;
  modify (set_name (registered_name module_dict [])) ;;;
  modify (set_textblk_break default_break) ;;;
  modify (set_lang_source lang_source) ;;;
  modify (set_lang_target lang_target) ;;;
  modify (set_lang_map LANGMAP_GLOBAL) ;;;
  modify (set_postprocess_hooks []) ;;;
  try_except setup_translator
    (fun e =>
       if is_MissingTranslatorParams e
       then raise e
       else raise (TranslatorSetupFailure e)) ;;;
  modify (fun self => set_valid_lang_list (valid_langs (lang_map self)) self) ;;;
  try_except (set_source lang_source ;;; set_target lang_target)
    (fun e =>
       match e with
       | InvalidSourceOrTargetLanguage _ _ =>
           if raise_unsupported_lang
           then raise e
           else
             self <- get ;;
             lang_source <- first_item (supported_src_list self) ;;
             self <- get ;;
             lang_target <- first_item (supported_tgt_list self) ;;
             set_source lang_source ;;;
             set_target lang_target
       | _ => raise e
       end) ;;;
  if cht_require_convert B
  then register_postprocess_hooks (ArgCallable Chs2cht)
  else ret tt.

(** [BaseTranslator(lang_source, lang_target, raise_unsupported_lang,
    **params)]: the instance when [__init__] returns, its exception
    otherwise. *)
Definition construct (lang_source lang_target : str)
    (raise_unsupported_lang : bool) (kwargs : dict value)
    : exn + translator :=
  let r := __init__ lang_source lang_target raise_unsupported_lang kwargs fresh in
  match outcome r with
  | inl e => inl e
  | inr _ => inr (self_after r)
  end.

Definition _chs2cht (self : translator) (text : str) : str :=
  if PyStr.eqb (lang_target self) TRADITIONAL_CHINESE
  then chs2cht text
  else text.

(** [callback(t)] *)
Definition call_hook (cb : callback) (t : str) : M str :=
  tell (CallHook cb t) ;;;
  self <- get ;;
  match cb with
  | Chs2cht => ret (_chs2cht self t)
  | UserHook id => ret (user_hook id t)
  end.

(** The inner loop of the list case,
    [for callback in hooks: text_trans[ii] = callback(t)]:
    [t] is the element read by [enumerate], [cur] is [text_trans[ii]]. *)
Fixpoint hooks_on_item (hooks : list callback) (t cur : str) : M str :=
  match hooks with
  | [] => ret cur
  | callback :: hooks' =>
      v <- call_hook callback t ;;
      hooks_on_item hooks' t v
  end.

(** The outer loop of the list case, over the elements of
    [text_trans]. *)
Fixpoint hooks_on_list (hooks : list callback) (l : list str)
    : M (list str) :=
  match l with
  | [] => ret []
  | t :: l' =>
      v <- hooks_on_item hooks t t ;;
      vs <- hooks_on_list hooks l' ;;
      ret (v :: vs)
  end.

(** The loop of the scalar case,
    [for callback in hooks: text_trans = callback(text_trans)]. *)
Fixpoint hooks_on_scalar (hooks : list callback) (text_trans : str)
    : M str :=
  match hooks with
  | [] => ret text_trans
  | callback :: hooks' =>
      v <- call_hook callback text_trans ;;
      hooks_on_scalar hooks' v
  end.

Definition call_translate (text_source : text) : M (option text) :=
  tell (CallBackend text_source) ;;;
  self <- get ;;
  lift (_translate B self text_source).

Definition translate (text_in : text) : M text :=
  if text_is_empty text_in then ret text_in
  else
    self <- get ;;
    let concate := is_list text_in && concate_text B in
    text_source <-
      match text_in with
      | Lst l =>
          if concate
          then tell (DoJoin l) ;;;
               ret (Str (textlist2text (textblk_break self) l))
          else ret text_in
      | Str _ => ret text_in
      end ;;
    text_trans <- call_translate text_source ;;
    text_trans <-
      match text_trans with
      | None =>
          match text_in with
          | Lst l => ret (Lst (repeat [] (List.length l)))
          | Str _ => ret (Str [])
          end
      | Some tt' =>
          if concate
          then
            match tt' with
            | Str s =>
                tell (DoSplit s) ;;;
                match text2textlist (textblk_break self) s with
                | Some l => ret (Lst l)
                | None => raise ValueError
                end
            | Lst _ => raise AttributeError
            end
          else ret tt'
      end ;;
    match text_in with
    | Lst l =>
        if negb (Nat.eqb (len text_trans) (List.length l))
        then raise AssertionError
        else
          match text_trans with
          | Lst out =>
              out' <- hooks_on_list (postprocess_hooks self) out ;;
              ret (Lst out')
          | Str s =>
              (* a string came back for a list: the first item
                 assignment fails *)
              match postprocess_hooks self, s with
              | callback :: _, c :: _ =>
                  call_hook callback [c] ;;; raise TypeError
              | _, _ => ret (Str s)
              end
          end
    | Str _ =>
        match text_trans with
        | Str s =>
            s' <- hooks_on_scalar (postprocess_hooks self) s ;;
            ret (Str s')
        | Lst out =>
            (* a list came back for a string: hooks take strings *)
            match postprocess_hooks self with
            | [] => ret (Lst out)
            | _ :: _ => raise TypeError
            end
        end
    end.

Definition delay : M float :=
  self <- get ;;
  let fallback : M float := ret 0%float in
  if dict_has (params self) (lit "delay")
  then
    match dict_get (params self) (lit "delay") with
    | Some delay =>
        if truthy delay
        then try_except (lift (py_float delay)) (fun _ => fallback)
        else fallback
    | None => raise KeyError
    end
  else fallback.

End Methods.

(** ** The record adapter (translate_textblk_lst) *)

(** Modelled from the spec: [TextBlock] (..textdetector.textblock) is
    outside this file; the adapter reads a block's text with
    [get_text()] and assigns its [translation] attribute. *)
Record textblock : Type := mkBlock {
  get_text : str;
  translation : str
}.

(** [blk.translation = tr] *)
Definition set_translation (tr : str) (blk : textblock) : textblock :=
  mkBlock (get_text blk) tr.

Section Adapter.

Variable text_is_empty : text -> bool.
Variable chs2cht : str -> str.
Variable user_hook : nat -> str -> str.

(** The callables of the callers again, as they answer when called
    with the keyword argument [blk]. *)
Variable user_hook_blk : nat -> textblock -> str -> str.

Variable B : backend.

(** [callback(tr, blk=blk)] *)
Definition call_hook_blk (cb : callback) (tr : str) (blk : textblock)
    : M str :=
  tell (CallHook cb tr) ;;;
  self <- get ;;
  match cb with
  | Chs2cht => ret (_chs2cht chs2cht self tr)
  | UserHook id => ret (user_hook_blk id blk tr)
  end.

(** [for callback in self.postprocess_hooks: tr = callback(tr, blk=blk)] *)
Fixpoint hooks_on_block (hooks : list callback) (tr : str) (blk : textblock)
    : M str :=
  match hooks with
  | [] => ret tr
  | callback :: hooks' =>
      v <- call_hook_blk callback tr blk ;;
      hooks_on_block hooks' v blk
  end.

(** [for tr, blk in zip(translations, textblk_lst)]: the loop ends with
    the shorter of the two; the blocks are returned as the loop leaves
    them. *)
Fixpoint write_translations (translations : list str)
    (textblk_lst : list textblock) : M (list textblock) :=
  match translations, textblk_lst with
  | tr :: translations', blk :: textblk_lst' =>
      self <- get ;;
      tr' <- hooks_on_block (postprocess_hooks self) tr blk ;;
      rest <- write_translations translations' textblk_lst' ;;
      ret (set_translation tr' blk :: rest)
  | _, _ => ret textblk_lst
  end.

(** What iterating over the value of [translate] yields: the items of
    a list, the characters of a string. *)
Definition items (t : text) : list str :=
  match t with
  | Lst l => l
  | Str s => map (fun c => [c]) s
  end.

Definition translate_textblk_lst (textblk_lst : list textblock)
    : M (list textblock) :=
  let text_list := map get_text textblk_lst in
  translations <- translate text_is_empty chs2cht user_hook B (Lst text_list) ;;
  write_translations (items translations) textblk_lst.

End Adapter.

(** ** What the statements below speak about *)

(** The value a hook returns on a fragment, for an instance in a given
    state. *)
Definition hook_value (chs2cht : str -> str) (user_hook : nat -> str -> str)
    (self : translator) (cb : callback) (t : str) : str :=
  match cb with
  | Chs2cht => _chs2cht chs2cht self t
  | UserHook id => user_hook id t
  end.

(** Sequential composition of the hooks, the first one innermost. *)
Definition compose_hooks (chs2cht : str -> str)
    (user_hook : nat -> str -> str) (self : translator)
    (hooks : list callback) (t : str) : str :=
  fold_left (fun acc cb => hook_value chs2cht user_hook self cb acc) hooks t.

(** The calls a trace makes to one hook. *)
Definition hook_calls (cb : callback) (trace : list event) : nat :=
  List.length
    (filter (fun e =>
               match e with
               | CallHook cb' _ => callback_eqb cb cb'
               | _ => false
               end) trace).

(** The instance's list of valid languages agrees with its catalog,
    whose keys are distinct as those of any [dict]. *)
Definition catalog_in_step (self : translator) : Prop :=
  NoDup (dict_keys (lang_map self)) /\
  valid_lang_list self = valid_langs (lang_map self).

(** A method keeps a property of the instance, whether it returns or
    raises. *)
Definition keeps (P : translator -> Prop) {A : Type} (m : M A) : Prop :=
  forall self, P self -> P (self_after (m self)).

(** No string occurs twice in the list. *)
Fixpoint distinct (l : list str) : bool :=
  match l with
  | [] => true
  | x :: l' => negb (mem x l') && distinct l'
  end.

(** The instance as [__init__] has it when it calls
    [setup_translator]. *)
Definition before_setup (B : backend) (module_dict : list (str * nat))
    (lang_source lang_target : str) (kwargs : dict value) : translator :=
  mkTranslator kwargs (registered_name B module_dict []) default_break
    lang_source lang_target LANGMAP_GLOBAL [] [].

(** ** Test doubles *)

(** Modelled from the spec: [text_is_empty] is outside this file; the
    spec names the empty string and the empty sequence as the inputs
    recognized as empty. *)
Definition text_is_empty_spec (t : text) : bool :=
  match t with
  | Str [] => true
  | Lst [] => true
  | _ => false
  end.

(** [d[k] = v] *)
Fixpoint dict_set {V : Type} (d : dict V) (k : str) (v : V) : dict V :=
  match d with
  | [] => [(k, v)]
  | (k', v') :: d' =>
      if PyStr.eqb k k' then (k, v) :: d' else (k', v') :: dict_set d' k v
  end.

Definition upper (s : str) : str :=
  map (fun c => if ((97 <=? c) && (c <=? 122))%N then (c - 32)%N else c) s.

(** A backend whose catalog knows English only. *)
Definition setup_english (self : translator) : exn + translator :=
  inr (set_lang_map (dict_set (lang_map self) (lit "English") (lit "en")) self).

(** The stub of the spec's end-to-end test: upper-cases what it gets. *)
Definition upper_backend : backend :=
  mkBackend 0 true false setup_english
    (fun _ t =>
       inr (Some match t with
                 | Str s => Str (upper s)
                 | Lst l => Lst (map upper l)
                 end)).

(** A backend that produces no translation. *)
Definition none_backend : backend :=
  mkBackend 1 true false setup_english (fun _ _ => inr None).

(** A backend whose setup fills in no language code. *)
Definition bare_backend : backend :=
  mkBackend 2 true false (fun self => inr self) (fun _ _ => inr None).

(** A backend whose setup raises [e]. *)
Definition failing_backend (e : exn) : backend :=
  mkBackend 3 true false (fun _ => inl e) (fun _ _ => inr None).

(** Two caller hooks: the first appends ["1"], the second ["2"]. *)
Definition sample_hook (id : nat) (s : str) : str :=
  match id with
  | 0 => s ++ lit "1"
  | 1 => s ++ lit "2"
  | _ => s
  end.

Definition no_conversion (s : str) : str := s.

Definition no_float_of_int (z : Z) : option float := None.

Definition no_float_of_str (s : str) : option float := None.

Definition english_instance : translator :=
  mkTranslator [] [] default_break (lit "English") (lit "English")
    (dict_set LANGMAP_GLOBAL (lit "English") (lit "en")) []
    [lit "English"].

(** The same instance after both sample hooks were registered. *)
Definition two_hook_instance : translator :=
  set_postprocess_hooks [UserHook 0; UserHook 1] english_instance.

(** The calls a trace makes to the backend. *)
Definition backend_events (trace : list event) : list event :=
  filter (fun e =>
            match e with
            | CallBackend _ => true
            | _ => false
            end) trace.

(** The current languages are among the supported ones. *)
Definition langs_valid (self : translator) : Prop :=
  In (lang_source self) (valid_lang_list self) /\
  In (lang_target self) (valid_lang_list self).

(** The value a hook returns on a fragment when called with a block. *)
Definition hook_value_blk (chs2cht : str -> str)
    (user_hook_blk : nat -> textblock -> str -> str)
    (self : translator) (blk : textblock) (cb : callback) (t : str) : str :=
  match cb with
  | Chs2cht => _chs2cht chs2cht self t
  | UserHook id => user_hook_blk id blk t
  end.

(** Sequential composition of the hooks called with a block. *)
Definition compose_hooks_blk (chs2cht : str -> str)
    (user_hook_blk : nat -> textblock -> str -> str) (self : translator)
    (blk : textblock) (hooks : list callback) (t : str) : str :=
  fold_left
    (fun acc cb => hook_value_blk chs2cht user_hook_blk self blk cb acc)
    hooks t.

(** The blocks after the loop over [zip(translations, textblk_lst)]:
    a block that got a translation holds it, passed through the hooks;
    the blocks beyond the last translation are as they were. *)
Fixpoint written (chs2cht : str -> str)
    (user_hook_blk : nat -> textblock -> str -> str) (self : translator)
    (translations : list str) (textblk_lst : list textblock)
    : list textblock :=
  match translations, textblk_lst with
  | tr :: translations', blk :: textblk_lst' =>
      set_translation
        (compose_hooks_blk chs2cht user_hook_blk self blk
           (postprocess_hooks self) tr) blk
      :: written chs2cht user_hook_blk self translations' textblk_lst'
  | _, _ => textblk_lst
  end.

(** A [text_is_empty] that also takes white space, and lists of it,
    for empty. *)
Definition text_is_blank (t : text) : bool :=
  match t with
  | Str s => match strip s with [] => true | _ :: _ => false end
  | Lst l =>
      forallb (fun s => match strip s with [] => true | _ :: _ => false end) l
  end.

(** A stand-in for the script conversion: it marks what it converts. *)
Definition marking_conversion (s : str) : str := lit "cht:" ++ s.

(** The English instance with the conversion hook registered. *)
Definition converted_instance : translator :=
  set_postprocess_hooks [Chs2cht] english_instance.

(** The last step of [__init__]: the conversion hook is registered for
    a backend that asks for it. *)
Definition with_conversion_hook (B : backend) (self : translator)
    : translator :=
  if cht_require_convert B
  then set_postprocess_hooks (oset_add Chs2cht (postprocess_hooks self)) self
  else self.

(** A backend that answers the same text whatever it is asked. *)
Definition deaf_backend : backend :=
  mkBackend 4 true false setup_english
    (fun _ _ => inr (Some (Str (lit "sorry")))).

(** A backend whose [_translate] raises. *)
Definition broken_backend : backend :=
  mkBackend 5 true false setup_english (fun _ _ => inl (BackendError 404)).

(** A backend that returns what it was given. *)
Definition echo_backend : backend :=
  mkBackend 6 true false setup_english (fun _ t => inr (Some t)).

(** The same with the class attribute [cht_require_convert] set. *)
Definition converting_backend : backend :=
  mkBackend 7 true true setup_english (fun _ t => inr (Some t)).

(** The English instance with the first sample hook registered. *)
Definition one_hook_instance : translator :=
  set_postprocess_hooks [UserHook 0] english_instance.

(** The sample hooks called with a block: they put the block's text in
    front. *)
Definition sample_hook_blk (id : nat) (blk : textblock) (s : str) : str :=
  get_text blk ++ lit ":" ++ sample_hook id s.

(** ** Properties of the string functions *)

Lemma startswith_app_LF (sep p t : str) :
  ~ In LF sep ->
  startswith sep (p ++ LF :: t) = true -> startswith sep p = true.
Proof.
  revert p; induction sep as [|x sep IH]; intros p Hnl H; [reflexivity|].
  destruct p as [|y p]; simpl in *.
  - apply andb_prop in H as [Hx _]. apply N.eqb_eq in Hx.
    exfalso; apply Hnl; left; exact Hx.
  - apply andb_prop in H as [Hx Hr]. rewrite Hx; simpl.
    apply IH; [intro Hin; apply Hnl; right; exact Hin | exact Hr].
Qed.

Lemma startswith_self_app (sep t : str) : startswith sep (sep ++ t) = true.
Proof.
  induction sep as [|x sep IH]; [reflexivity|].
  simpl. rewrite N.eqb_refl. exact IH.
Qed.

Lemma split_go_skip (sep u t : str) :
  split_go sep (List.length u) (u ++ t) = split_go sep 0 t.
Proof. induction u as [|c u IH]; [reflexivity | exact IH]. Qed.

(** A string without occurrence of the separator is one piece. *)
Lemma split_go_whole (sep p : str) :
  sep <> [] -> contains sep p = false -> split_go sep 0 p = [p].
Proof.
  intros Hne. induction p as [|c p IH]; intros H; [reflexivity|].
  simpl in H. apply orb_false_elim in H as [Hs Hc].
  change (split_go sep 0 (c :: p))
    with (if startswith sep (c :: p)
          then [] :: split_go sep (List.length sep - 1) p
          else push c (split_go sep 0 p)).
  rewrite Hs, (IH Hc). reflexivity.
Qed.

(** The first piece ends at the first occurrence of the separator when
    the text before it holds none; the line feed put before the
    separator by [join] keeps an occurrence from straddling. *)
Lemma split_go_first (sep p t : str) :
  sep <> [] -> ~ In LF sep -> contains sep p = false ->
  split_go sep 0 (p ++ LF :: sep ++ t) = (p ++ [LF]) :: split_go sep 0 t.
Proof.
  intros Hne Hnl. induction p as [|c p IH]; intros H.
  - destruct sep as [|x sep]; [congruence|].
    assert (Hx : N.eqb x LF = false).
    { apply N.eqb_neq. intro E. apply Hnl. left. exact E. }
    pose proof (startswith_self_app (x :: sep) t) as Hself.
    change (([] : str) ++ LF :: (x :: sep) ++ t) with (LF :: x :: sep ++ t).
    change ((x :: sep) ++ t) with (x :: sep ++ t) in Hself.
    change (split_go (x :: sep) 0 (LF :: x :: sep ++ t))
      with (if startswith (x :: sep) (LF :: x :: sep ++ t)
            then [] :: split_go (x :: sep) (List.length (x :: sep) - 1) (x :: sep ++ t)
            else push LF (if startswith (x :: sep) (x :: sep ++ t)
                          then [] :: split_go (x :: sep) (List.length (x :: sep) - 1) (sep ++ t)
                          else push x (split_go (x :: sep) 0 (sep ++ t)))).
    rewrite Hself.
    replace (startswith (x :: sep) (LF :: x :: sep ++ t)) with false
      by (simpl; rewrite Hx; reflexivity).
    replace (List.length (x :: sep) - 1) with (List.length sep) by (simpl; lia).
    rewrite split_go_skip. reflexivity.
  - simpl in H. apply orb_false_elim in H as [Hs Hc].
    change (split_go sep 0 ((c :: p) ++ LF :: sep ++ t))
      with (if startswith sep ((c :: p) ++ LF :: sep ++ t)
            then [] :: split_go sep (List.length sep - 1) (p ++ LF :: sep ++ t)
            else push c (split_go sep 0 (p ++ LF :: sep ++ t))).
    destruct (startswith sep ((c :: p) ++ LF :: sep ++ t)) eqn:E.
    + apply startswith_app_LF in E; [congruence | exact Hnl].
    + rewrite (IH Hc). reflexivity.
Qed.

Lemma contains_LF_cons (sep p : str) :
  sep <> [] -> ~ In LF sep ->
  contains sep p = false -> contains sep (LF :: p) = false.
Proof.
  intros Hne Hnl Hp. simpl. rewrite Hp, orb_false_r.
  destruct sep as [|x sep]; [congruence|].
  simpl. replace (N.eqb x LF) with false; [reflexivity|].
  symmetry. apply N.eqb_neq. intro E. apply Hnl. left. exact E.
Qed.

Lemma lstrip_space (c : char) (s : str) :
  isspace c = true -> lstrip (c :: s) = lstrip s.
Proof. intros H; simpl; rewrite H; reflexivity. Qed.

Lemma lstrip_snoc (c : char) (s : str) :
  isspace c = true ->
  (lstrip s = [] /\ lstrip (s ++ [c]) = []) \/
  lstrip (s ++ [c]) = lstrip s ++ [c].
Proof.
  intros Hc. induction s as [|x s IH].
  - left. simpl. rewrite Hc. auto.
  - simpl. destruct (isspace x); [exact IH | right; reflexivity].
Qed.

Lemma rstrip_snoc (c : char) (s : str) :
  isspace c = true -> rstrip (s ++ [c]) = rstrip s.
Proof.
  intros Hc. unfold rstrip. rewrite rev_app_distr. simpl.
  rewrite Hc. reflexivity.
Qed.

Lemma strip_space_l (c : char) (s : str) :
  isspace c = true -> strip (c :: s) = strip s.
Proof. intros H. unfold strip. rewrite lstrip_space by exact H. reflexivity. Qed.

Lemma strip_space_r (c : char) (s : str) :
  isspace c = true -> strip (s ++ [c]) = strip s.
Proof.
  intros H. unfold strip.
  destruct (lstrip_snoc c s H) as [[E1 E2] | E].
  - rewrite E1, E2. reflexivity.
  - rewrite E. apply rstrip_snoc. exact H.
Qed.

(** ** The codec: join, then split *)

Lemma breaker_default : breaker default_break = hashes.
Proof. reflexivity. Qed.

Lemma hashes_no_LF : ~ In LF hashes.
Proof. cbv. intros [H|[H|[H|[]]]]; discriminate H. Qed.

Lemma hashes_nonempty : hashes <> [].
Proof. discriminate. Qed.

Lemma join_cons2 (sep f g : str) (F : list str) :
  join sep (f :: g :: F) = f ++ sep ++ join sep (g :: F).
Proof. reflexivity. Qed.

Lemma LF_isspace : isspace LF = true.
Proof. reflexivity. Qed.

(** The pieces cut out of a joined text are the fragments, each with a
    line feed on the sides where a delimiter stood. *)
Lemma split_join_pieces (F : list str) :
  forall (f pre : str),
    pre = [] \/ pre = [LF] ->
    contains hashes f = false ->
    Forall (fun g => contains hashes g = false) F ->
    map strip (split_go hashes 0 (pre ++ join default_break (f :: F)))
    = map strip (f :: F).
Proof.
  induction F as [|g F IH]; intros f pre Hpre Hf HF.
  - assert (Hpf : contains hashes (pre ++ f) = false).
    { destruct Hpre as [-> | ->]; [exact Hf|].
      apply contains_LF_cons;
        [exact hashes_nonempty | exact hashes_no_LF | exact Hf]. }
    simpl join. rewrite (split_go_whole _ _ hashes_nonempty Hpf). simpl.
    destruct Hpre as [-> | ->]; [reflexivity|].
    simpl. rewrite (strip_space_l LF f LF_isspace). reflexivity.
  - inversion HF as [|g' F' Hg HF' E]; subst.
    assert (Hpf : contains hashes (pre ++ f) = false).
    { destruct Hpre as [-> | ->]; [exact Hf|].
      apply contains_LF_cons;
        [exact hashes_nonempty | exact hashes_no_LF | exact Hf]. }
    rewrite join_cons2.
    replace (pre ++ f ++ default_break ++ join default_break (g :: F))
      with ((pre ++ f) ++ LF :: hashes ++ ([LF] ++ join default_break (g :: F))).
    2:{ unfold default_break. change (lit "###") with hashes.
        rewrite <- !app_assoc. reflexivity. }
    rewrite (split_go_first _ _ _ hashes_nonempty hashes_no_LF Hpf).
    rewrite map_cons.
    change (map strip (f :: g :: F)) with (strip f :: map strip (g :: F)).
    f_equal; [|exact (IH g [LF] (or_intror eq_refl) Hg HF')].
    rewrite (strip_space_r LF _ LF_isspace).
    destruct Hpre as [-> | ->]; [reflexivity|].
    exact (strip_space_l LF f LF_isspace).
Qed.

(** C2, as amended: for a non-empty sequence of fragments none of which
    contains ["###"] (the delimiter without its line feeds, which is what
    [text2textlist] splits on), joining with [textlist2text] and
    splitting with [text2textlist] gives back the fragments, each
    stripped of its leading and trailing white space, and so as many
    of them. *)
Theorem join_split_roundtrip (F : list str) :
  F <> [] ->
  (forall f, In f F -> contains hashes f = false) ->
  text2textlist default_break (textlist2text default_break F)
  = Some (map strip F)
  /\ option_map (@List.length str)
       (text2textlist default_break (textlist2text default_break F))
     = Some (List.length F).
Proof.
  intros Hne Hall.
  assert (E : text2textlist default_break (textlist2text default_break F)
              = Some (map strip F)).
  { destruct F as [|f F]; [congruence|].
    unfold text2textlist, textlist2text. rewrite breaker_default.
    change (split hashes (join default_break (f :: F)))
      with (Some (split_go hashes 0 ([] ++ join default_break (f :: F)))).
    cbv beta iota. f_equal.
    apply (split_join_pieces F f [] (or_introl eq_refl)).
    - apply Hall. left. reflexivity.
    - apply Forall_forall. intros g Hg. apply Hall. right. exact Hg. }
  split; [exact E|].
  rewrite E. simpl. rewrite length_map. reflexivity.
Qed.

Lemma join_split_roundtrip_witness :
  text2textlist default_break
    (textlist2text default_break [lit " hello"; lit "wor#ld "; lit ""])
  = Some [lit "hello"; lit "wor#ld"; lit ""].
Proof.
  refine (proj1 (join_split_roundtrip
                   [lit " hello"; lit "wor#ld "; lit ""] _ _)).
  - discriminate.
  - intros f [<-|[<-|[<-|[]]]]; reflexivity.
Defined.

(** C2, as stated, fails: a fragment can hold ["###"] without holding the
    whole delimiter, and is then cut in two. *)
Lemma join_split_delimiter_free_counterexample :
  ~ (forall F : list str,
       F <> [] ->
       (forall f, In f F -> contains default_break f = false) ->
       text2textlist default_break (textlist2text default_break F)
       = Some (map strip F)).
Proof.
  intros H.
  specialize (H [lit "a###b"]).
  assert (E : text2textlist default_break
                (textlist2text default_break [lit "a###b"])
              = Some [lit "a"; lit "b"]) by reflexivity.
  rewrite E in H.
  assert (C : Some [lit "a"; lit "b"] = Some (map strip [lit "a###b"])).
  { apply H; [discriminate|].
    intros f [<-|[]]. reflexivity. }
  discriminate C.
Qed.

(** ** The hook loops *)

Section HookLoops.

Variable chs2cht : str -> str.
Variable user_hook : nat -> str -> str.

Local Abbreviation hv := (hook_value chs2cht user_hook).
Local Abbreviation call_hook' := (call_hook chs2cht user_hook).

Lemma call_hook_run (cb : callback) (t : str) (self : translator) :
  call_hook' cb t self = mkRun (inr (hv self cb t)) self [CallHook cb t].
Proof. destruct cb; reflexivity. Qed.

(** The inner loop of the list case leaves in [text_trans[ii]] what the
    last hook makes of the element [t] it started from. *)
Lemma hooks_on_item_run (hooks : list callback) (t : str) :
  forall (cur : str) (self : translator),
    hooks_on_item chs2cht user_hook hooks t cur self
    = mkRun (inr (fold_left (fun _ cb => hv self cb t) hooks cur)) self
        (map (fun cb => CallHook cb t) hooks).
Proof.
  induction hooks as [|cb hooks IH]; intros cur self; [reflexivity|].
  simpl. unfold bind. rewrite call_hook_run. simpl. rewrite IH. reflexivity.
Qed.

Lemma hooks_on_list_run (hooks : list callback) (l : list str)
    (self : translator) :
  hooks_on_list chs2cht user_hook hooks l self
  = mkRun (inr (map (fun t => fold_left (fun _ cb => hv self cb t) hooks t) l))
      self
      (flat_map (fun t => map (fun cb => CallHook cb t) hooks) l).
Proof.
  induction l as [|t l IH]; [reflexivity|].
  simpl. unfold bind. rewrite hooks_on_item_run. simpl. rewrite IH. simpl.
  rewrite app_nil_r. reflexivity.
Qed.

(** The trace of the scalar loop: each hook is called on what the one
    before it returned. *)
Lemma hooks_on_scalar_run (hooks : list callback) :
  forall (s : str) (self : translator),
    outcome (hooks_on_scalar chs2cht user_hook hooks s self)
    = inr (compose_hooks chs2cht user_hook self hooks s)
    /\ self_after (hooks_on_scalar chs2cht user_hook hooks s self) = self
    /\ forall cb,
         hook_calls cb (calls (hooks_on_scalar chs2cht user_hook hooks s self))
         = List.length (filter (callback_eqb cb) hooks).
Proof.
  induction hooks as [|c hooks IH]; intros s self.
  - repeat split.
  - destruct (IH (hv self c s) self) as (Ho & Hs & Hc).
    simpl. unfold bind. rewrite call_hook_run. simpl.
    repeat split; [exact Ho | exact Hs |].
    intros cb. unfold hook_calls in *. simpl.
    destruct (callback_eqb cb c); simpl; rewrite Hc; reflexivity.
Qed.

Lemma hook_calls_app (cb : callback) (a b : list event) :
  hook_calls cb (a ++ b) = hook_calls cb a + hook_calls cb b.
Proof. unfold hook_calls. rewrite filter_app, length_app. reflexivity. Qed.

Lemma hook_calls_other (cb : callback) (e : event) (t : list event) :
  (forall c a, e <> CallHook c a) ->
  hook_calls cb (e :: t) = hook_calls cb t.
Proof.
  intros H. unfold hook_calls. simpl.
  destruct e as [x|c a|x|x]; try reflexivity.
  exfalso. exact (H c a eq_refl).
Qed.

Lemma hook_calls_item (cb : callback) (hooks : list callback) (t : str) :
  hook_calls cb (map (fun c => CallHook c t) hooks)
  = List.length (filter (callback_eqb cb) hooks).
Proof.
  unfold hook_calls. induction hooks as [|c hooks IH]; [reflexivity|].
  simpl. destruct (callback_eqb cb c); simpl; rewrite IH; reflexivity.
Qed.

Lemma hook_calls_list (cb : callback) (hooks : list callback) (l : list str) :
  hook_calls cb (flat_map (fun t => map (fun c => CallHook c t) hooks) l)
  = List.length l * List.length (filter (callback_eqb cb) hooks).
Proof.
  induction l as [|t l IH]; [reflexivity|].
  simpl flat_map. rewrite hook_calls_app, hook_calls_item, IH.
  simpl. reflexivity.
Qed.

Lemma fold_last_fixed (f : callback -> str -> str) (hooks : list callback)
    (t : str) :
  (forall cb, In cb hooks -> f cb t = t) ->
  fold_left (fun _ cb => f cb t) hooks t = t.
Proof.
  induction hooks as [|c hooks IH]; intros H; [reflexivity|].
  simpl. rewrite (H c (or_introl eq_refl)).
  apply IH. intros cb Hin. apply H. right. exact Hin.
Qed.

Lemma fold_compose_fixed (f : callback -> str -> str) (hooks : list callback)
    (t : str) :
  (forall cb, In cb hooks -> f cb t = t) ->
  fold_left (fun acc cb => f cb acc) hooks t = t.
Proof.
  induction hooks as [|c hooks IH]; intros H; [reflexivity|].
  simpl. rewrite (H c (or_introl eq_refl)).
  apply IH. intros cb Hin. apply H. right. exact Hin.
Qed.

End HookLoops.

(** Drops from a trace the calls that are not calls of a hook. *)
Ltac skip_other_calls :=
  rewrite ?app_nil_r;
  repeat (rewrite hook_calls_other by (intros ? ?; discriminate)).

(** ** translate *)

Section Translate.

Variable text_is_empty : text -> bool.
Variable chs2cht : str -> str.
Variable user_hook : nat -> str -> str.
Variable B : backend.

Local Abbreviation hv := (hook_value chs2cht user_hook).
Local Abbreviation translate' := (translate text_is_empty chs2cht user_hook B).

(** C4: an input recognized as empty by [text_is_empty] (the empty
    string and the empty list where it accepts them) comes back
    unchanged, the instance is untouched, and nothing was called: no
    backend, no hook, no join, no split. *)
Theorem translate_empty_input (self : translator) (text_in : text) :
  text_is_empty text_in = true ->
  translate' text_in self = mkRun (inr text_in) self [].
Proof.
  intros H. unfold translate. rewrite H. reflexivity.
Qed.

(** C3, as amended: when the backend's [_translate] returns [None] and
    the input is not recognized as empty, [translate] returns a value
    of the input's shape: a string for a string, a list of as many
    strings for a list; and when every registered hook maps the empty
    string to itself (so also when none is registered), that value is
    the empty string, or the list of N empty strings. *)
Theorem translate_none_backend (self : translator) (text_in : text) :
  text_is_empty text_in = false ->
  (forall src, _translate B self src = inr None) ->
  (exists out,
      outcome (translate' text_in self) = inr out
      /\ is_list out = is_list text_in
      /\ (is_list text_in = true -> len out = len text_in))
  /\ ((forall cb, In cb (postprocess_hooks self) -> hv self cb [] = []) ->
      outcome (translate' text_in self)
      = inr match text_in with
            | Str _ => Str []
            | Lst l => Lst (repeat [] (List.length l))
            end).
Proof.
  intros Hne Hnone. unfold translate. rewrite Hne.
  destruct text_in as [s|l].
  - unfold bind, call_translate. simpl. rewrite Hnone. simpl.
    destruct (hooks_on_scalar_run chs2cht user_hook
                (postprocess_hooks self) [] self) as (Ho & _ & _).
    rewrite Ho. split.
    + eexists. split; [reflexivity|]. split; [reflexivity|]. discriminate.
    + intros Hfix. unfold compose_hooks.
      rewrite (fold_compose_fixed (hv self) _ [] Hfix). reflexivity.
  - unfold bind, call_translate. simpl.
    destruct (concate_text B); simpl; rewrite Hnone; simpl;
      rewrite repeat_length, Nat.eqb_refl; simpl;
      rewrite hooks_on_list_run; simpl.
    all: split;
      [ eexists; split; [reflexivity|]; split; [reflexivity|];
        intros _; unfold len; rewrite length_map, repeat_length; reflexivity
      | intros Hfix; do 2 f_equal;
        induction (List.length l) as [|n IH]; [reflexivity|];
        simpl; rewrite IH;
        rewrite (fold_last_fixed (hv self) _ [] Hfix); reflexivity ].
Qed.

(** Every hook is called once for each of its entries in the hook
    collection and each fragment, whenever [translate] returns. *)
Lemma translate_hook_calls (self : translator) (text_in out : text)
    (cb : callback) :
  text_is_empty text_in = false ->
  outcome (translate' text_in self) = inr out ->
  hook_calls cb (calls (translate' text_in self))
  = match text_in with
    | Str _ => 1
    | Lst l => List.length l
    end * List.length (filter (callback_eqb cb) (postprocess_hooks self)).
Proof.
  intros Hne. unfold translate. rewrite Hne.
  destruct text_in as [s|l]; unfold bind, call_translate; simpl.
  - destruct (_translate B self (Str s)) as [e|[[s'|l']|]]; simpl;
      try discriminate.
    + destruct (hooks_on_scalar_run chs2cht user_hook
                  (postprocess_hooks self) s' self) as (Ho & _ & Hc).
      rewrite Ho. simpl. intros _. skip_other_calls. rewrite Hc. lia.
    + destruct (postprocess_hooks self); simpl; [reflexivity|discriminate].
    + destruct (hooks_on_scalar_run chs2cht user_hook
                  (postprocess_hooks self) [] self) as (Ho & _ & Hc).
      rewrite Ho. simpl. intros _. skip_other_calls. rewrite Hc. lia.
  - destruct (concate_text B); simpl.
    + destruct (_translate B self (Str (textlist2text (textblk_break self) l)))
        as [e|[[s'|l']|]]; simpl; try discriminate.
      * destruct (text2textlist (textblk_break self) s') as [l'|]; simpl;
          [|discriminate].
        destruct (Nat.eqb (List.length l') (List.length l)) eqn:E; simpl;
          [|discriminate].
        apply Nat.eqb_eq in E.
        rewrite hooks_on_list_run. simpl. intros _. skip_other_calls.
        rewrite hook_calls_list, E. reflexivity.
      * rewrite repeat_length, Nat.eqb_refl. simpl.
        rewrite hooks_on_list_run. simpl. intros _. skip_other_calls.
        rewrite hook_calls_list, repeat_length. reflexivity.
    + destruct (_translate B self (Lst l)) as [e|[[s'|l']|]]; simpl;
        try discriminate.
      * destruct (Nat.eqb (List.length s') (List.length l)) eqn:E; simpl;
          [|discriminate].
        apply Nat.eqb_eq in E.
        destruct (postprocess_hooks self) as [|c hooks]; simpl.
        -- intros _. skip_other_calls. rewrite Nat.mul_0_r. reflexivity.
        -- destruct s' as [|x s']; simpl; [|destruct c; discriminate].
           intros _. skip_other_calls. simpl in E. rewrite <- E. reflexivity.
      * destruct (Nat.eqb (List.length l') (List.length l)) eqn:E; simpl;
          [|discriminate].
        apply Nat.eqb_eq in E.
        rewrite hooks_on_list_run. simpl. intros _. skip_other_calls.
        rewrite hook_calls_list, E. reflexivity.
      * rewrite repeat_length, Nat.eqb_refl. simpl.
        rewrite hooks_on_list_run. simpl. intros _. skip_other_calls.
        rewrite hook_calls_list, repeat_length. reflexivity.
Qed.

End Translate.

Lemma translate_empty_input_witness :
  translate text_is_empty_spec no_conversion sample_hook upper_backend
    (Str []) two_hook_instance
  = mkRun (inr (Str [])) two_hook_instance []
  /\ translate text_is_empty_spec no_conversion sample_hook upper_backend
       (Lst []) two_hook_instance
     = mkRun (inr (Lst [])) two_hook_instance [].
Proof.
  split.
  - apply (translate_empty_input text_is_empty_spec no_conversion sample_hook
             upper_backend two_hook_instance (Str [])).
    reflexivity.
  - apply (translate_empty_input text_is_empty_spec no_conversion sample_hook
             upper_backend two_hook_instance (Lst [])).
    reflexivity.
Defined.

Lemma translate_none_backend_witness :
  outcome (translate text_is_empty_spec no_conversion sample_hook none_backend
             (Lst [lit "a"; lit "b"; lit "c"]) english_instance)
  = inr (Lst [[]; []; []]).
Proof.
  refine (proj2 (translate_none_backend text_is_empty_spec no_conversion
                   sample_hook none_backend english_instance
                   (Lst [lit "a"; lit "b"; lit "c"]) _ _) _).
  - reflexivity.
  - intros src. reflexivity.
  - intros cb H. simpl in H. destruct H.
Defined.

(** C3, as stated, fails: the hooks run on the substituted empty string
    too, so with the hooks that append ["1"] and ["2"] a backend that
    returns [None] makes [translate] return ["12"] for a string. *)
Lemma translate_none_backend_counterexample :
  text_is_empty_spec (Str (lit "hi")) = false
  /\ (forall src, _translate none_backend two_hook_instance src = inr None)
  /\ outcome (translate text_is_empty_spec no_conversion sample_hook
                none_backend (Str (lit "hi")) two_hook_instance)
     = inr (Str (lit "12"))
  /\ outcome (translate text_is_empty_spec no_conversion sample_hook
                none_backend (Str (lit "hi")) two_hook_instance)
     <> inr (Str []).
Proof.
  split; [reflexivity|]. split; [intros src; reflexivity|].
  split; [reflexivity|]. discriminate.
Qed.

(** C1 at a failing input: with the hooks that append ["1"] and ["2"]
    registered in this order, [translate] on the list ["a"; "b"] returns
    ["A2"; "B2"]: each fragment went through the last hook alone, while
    the composition of the hooks gives ["A12"; "B12"], which is also
    what the scalar path returns for ["a"]. *)
Lemma translate_list_last_hook_only :
  outcome (translate text_is_empty_spec no_conversion sample_hook upper_backend
             (Lst [lit "a"; lit "b"]) two_hook_instance)
  = inr (Lst [lit "A2"; lit "B2"])
  /\ map (compose_hooks no_conversion sample_hook two_hook_instance
            (postprocess_hooks two_hook_instance)) [lit "A"; lit "B"]
     = [lit "A12"; lit "B12"]
  /\ outcome (translate text_is_empty_spec no_conversion sample_hook
                upper_backend (Str (lit "a")) two_hook_instance)
     = inr (Str (lit "A12")).
Proof. repeat split. Qed.

(** The end-to-end case of the spec, without hooks. *)
Example translate_hello_world :
  outcome (translate text_is_empty_spec no_conversion sample_hook upper_backend
             (Lst [lit "hello"; lit "world"]) english_instance)
  = inr (Lst [lit "HELLO"; lit "WORLD"]).
Proof. reflexivity. Qed.

(** ** The hook collection *)

Lemma callback_eqb_eq (a b : callback) : callback_eqb a b = true <-> a = b.
Proof.
  destruct a as [|i], b as [|j]; simpl; split; intros H;
    try reflexivity; try discriminate.
  - apply Nat.eqb_eq in H. congruence.
  - injection H as ->. apply Nat.eqb_refl.
Qed.

Lemma oset_mem_In (cb : callback) (s : ordered_set) :
  oset_mem cb s = true <-> In cb s.
Proof.
  unfold oset_mem. rewrite existsb_exists. split.
  - intros (x & Hin & E). apply callback_eqb_eq in E. subst. exact Hin.
  - intros Hin. exists cb. split; [exact Hin|]. apply callback_eqb_eq.
    reflexivity.
Qed.

Lemma oset_add_present (cb : callback) (s : ordered_set) :
  In cb s -> oset_add cb s = s.
Proof.
  intros H. unfold oset_add. apply oset_mem_In in H. rewrite H. reflexivity.
Qed.

Lemma oset_add_In (cb c : callback) (s : ordered_set) :
  In c (oset_add cb s) <-> In c s \/ c = cb.
Proof.
  unfold oset_add. destruct (oset_mem cb s) eqn:E.
  - apply oset_mem_In in E. split; [auto|]. intros [H| ->]; assumption.
  - rewrite in_app_iff. simpl. intuition congruence.
Qed.

Lemma oset_add_NoDup (cb : callback) (s : ordered_set) :
  NoDup s -> NoDup (oset_add cb s).
Proof.
  intros H. unfold oset_add. destruct (oset_mem cb s) eqn:E; [exact H|].
  apply NoDup_app; [exact H | repeat constructor; intros [] |].
  intros x Hx [<-|[]]. apply oset_mem_In in Hx. congruence.
Qed.

Lemma oset_fold_NoDup (l : list callback) :
  forall s, NoDup s -> NoDup (fold_left (fun s c => oset_add c s) l s).
Proof.
  induction l as [|c l IH]; intros s H; [exact H|].
  simpl. apply IH. apply oset_add_NoDup. exact H.
Qed.

Lemma oset_fold_In (l : list callback) :
  forall s c,
    In c (fold_left (fun s c => oset_add c s) l s) <-> In c s \/ In c l.
Proof.
  induction l as [|x l IH]; intros s c; simpl; [tauto|].
  rewrite IH, oset_add_In. intuition congruence.
Qed.

Lemma oset_fold_prefix (l : list callback) :
  forall s, exists added, fold_left (fun s c => oset_add c s) l s = s ++ added.
Proof.
  induction l as [|x l IH]; intros s; simpl.
  - exists []. rewrite app_nil_r. reflexivity.
  - destruct (IH (oset_add x s)) as [added E]. rewrite E.
    unfold oset_add. destruct (oset_mem x s).
    + exists added. reflexivity.
    + exists (x :: added). rewrite <- app_assoc. reflexivity.
Qed.

Lemma count_in_set (cb : callback) (s : ordered_set) :
  NoDup s -> In cb s -> List.length (filter (callback_eqb cb) s) = 1.
Proof.
  induction 1 as [|x s Hx Hnd IH]; intros Hin; [destruct Hin|].
  simpl. destruct (callback_eqb cb x) eqn:E.
  - apply callback_eqb_eq in E. subst x. simpl. f_equal.
    rewrite (proj2 (length_zero_iff_nil _)); [reflexivity|].
    destruct (filter (callback_eqb cb) s) as [|y ys] eqn:F; [reflexivity|].
    assert (Hy : In y (filter (callback_eqb cb) s)) by (rewrite F; left; reflexivity).
    apply filter_In in Hy as [Hy E]. apply callback_eqb_eq in E. subst y.
    contradiction.
  - destruct Hin as [->|Hin]; [|exact (IH Hin)].
    assert (callback_eqb cb cb = true) by (apply callback_eqb_eq; reflexivity).
    congruence.
Qed.

Lemma set_same_hooks (self : translator) :
  set_postprocess_hooks (postprocess_hooks self) self = self.
Proof. destruct self. reflexivity. Qed.

Lemma for_each_add_run (l : list callback) :
  forall self,
    for_each l
      (fun callback =>
         modify (fun self =>
           set_postprocess_hooks (oset_add callback (postprocess_hooks self)) self))
      self
    = mkRun (inr tt)
        (set_postprocess_hooks
           (fold_left (fun s c => oset_add c s) l (postprocess_hooks self)) self)
        [].
Proof.
  induction l as [|c l IH]; intros self.
  - simpl. rewrite set_same_hooks. reflexivity.
  - simpl. unfold bind. simpl. rewrite IH. destruct self. reflexivity.
Qed.

(** What a registration does to the instance, whatever its argument. *)
Lemma register_postprocess_hooks_run (arg : callbacks_arg) (self : translator) :
  register_postprocess_hooks arg self
  = mkRun (inr tt)
      (set_postprocess_hooks
         (fold_left (fun s c => oset_add c s)
            match arg with
            | ArgNone => []
            | ArgCallable cb => [cb]
            | ArgList l => l
            end
            (postprocess_hooks self))
         self)
      [].
Proof.
  destruct arg as [|cb|l]; unfold register_postprocess_hooks.
  - simpl. rewrite set_same_hooks. reflexivity.
  - apply for_each_add_run.
  - apply for_each_add_run.
Qed.

(** C8: on an instance whose hook collection is a set, registering
    [None] changes nothing; registering a callback already present
    changes nothing, so a second registration of the same callback has
    no effect; registering a list adds its elements one after the other
    behind those present, each only if absent; and a hook registered
    twice is called once per fragment by [translate]. *)
Theorem register_hooks_dedup (text_is_empty : text -> bool)
    (chs2cht : str -> str) (user_hook : nat -> str -> str) (B : backend)
    (self : translator) (cb : callback) (l : list callback) :
  NoDup (postprocess_hooks self) ->
  let once := self_after (register_postprocess_hooks (ArgCallable cb) self) in
  let twice := self_after (register_postprocess_hooks (ArgCallable cb) once) in
  let listed :=
    postprocess_hooks (self_after (register_postprocess_hooks (ArgList l) self)) in
  register_postprocess_hooks ArgNone self = mkRun (inr tt) self []
  /\ (In cb (postprocess_hooks self) ->
      register_postprocess_hooks (ArgCallable cb) self = mkRun (inr tt) self [])
  /\ twice = once
  /\ (listed = fold_left (fun s c => oset_add c s) l (postprocess_hooks self)
      /\ NoDup listed
      /\ (exists added, listed = postprocess_hooks self ++ added)
      /\ forall c, In c listed <-> In c (postprocess_hooks self) \/ In c l)
  /\ forall text_in out,
       text_is_empty text_in = false ->
       outcome (translate text_is_empty chs2cht user_hook B text_in twice)
       = inr out ->
       hook_calls cb
         (calls (translate text_is_empty chs2cht user_hook B text_in twice))
       = match text_in with
         | Str _ => 1
         | Lst fragments => List.length fragments
         end.
Proof.
  intros Hnd once twice listed.
  assert (Hin1 : In cb (postprocess_hooks once)).
  { unfold once. rewrite register_postprocess_hooks_run.
    cbn [self_after fold_left postprocess_hooks set_postprocess_hooks].
    apply oset_add_In. right. reflexivity. }
  assert (Hnd1 : NoDup (postprocess_hooks once)).
  { unfold once. rewrite register_postprocess_hooks_run.
    cbn [self_after fold_left postprocess_hooks set_postprocess_hooks].
    apply oset_add_NoDup. exact Hnd. }
  assert (Htw : twice = once).
  { unfold twice. rewrite register_postprocess_hooks_run.
    cbn [self_after fold_left postprocess_hooks set_postprocess_hooks].
    rewrite (oset_add_present cb _ Hin1). apply set_same_hooks. }
  split; [|split; [|split; [|split]]].
  - rewrite register_postprocess_hooks_run.
    cbn [self_after fold_left postprocess_hooks set_postprocess_hooks]. rewrite set_same_hooks.
    reflexivity.
  - intros Hin. rewrite register_postprocess_hooks_run.
    cbn [self_after fold_left postprocess_hooks set_postprocess_hooks].
    rewrite (oset_add_present cb _ Hin), set_same_hooks. reflexivity.
  - exact Htw.
  - unfold listed. rewrite register_postprocess_hooks_run.
    cbn [self_after fold_left postprocess_hooks set_postprocess_hooks].
    split; [reflexivity|]. split; [apply oset_fold_NoDup; exact Hnd|].
    split; [apply oset_fold_prefix | intros c; apply oset_fold_In].
  - intros text_in out Hne Hout. rewrite Htw in *.
    rewrite (translate_hook_calls text_is_empty chs2cht user_hook B once
               text_in out cb Hne Hout).
    rewrite (count_in_set cb _ Hnd1 Hin1). apply Nat.mul_1_r.
Qed.

Lemma register_hooks_dedup_witness :
  postprocess_hooks
    (self_after
       (register_postprocess_hooks
          (ArgList [UserHook 1; UserHook 2; UserHook 0; UserHook 2])
          two_hook_instance))
  = [UserHook 0; UserHook 1; UserHook 2]
  /\ hook_calls (UserHook 0)
       (calls
          (translate text_is_empty_spec no_conversion sample_hook upper_backend
             (Lst [lit "a"; lit "b"])
             (self_after
                (register_postprocess_hooks (ArgCallable (UserHook 0))
                   (self_after
                      (register_postprocess_hooks (ArgCallable (UserHook 0))
                         two_hook_instance))))))
     = 2.
Proof.
  assert (Hnd : NoDup (postprocess_hooks two_hook_instance)).
  { simpl. repeat constructor; simpl; intuition discriminate. }
  pose proof (register_hooks_dedup text_is_empty_spec no_conversion
                sample_hook upper_backend two_hook_instance (UserHook 0)
                [UserHook 1; UserHook 2; UserHook 0; UserHook 2] Hnd) as H.
  cbv zeta in H.
  destruct H as (_ & _ & _ & (Hl & _) & Hcalls).
  split.
  - rewrite Hl. reflexivity.
  - exact (Hcalls (Lst [lit "a"; lit "b"]) (Lst [lit "A2"; lit "B2"])
             eq_refl eq_refl).
Defined.

(** ** The language setters *)

Lemma eqb_eq (a b : str) : PyStr.eqb a b = true <-> a = b.
Proof.
  revert b; induction a as [|x a IH]; intros [|y b]; simpl;
    split; intros H; try reflexivity; try discriminate.
  - apply andb_prop in H as [Hx Hr]. apply N.eqb_eq in Hx.
    apply IH in Hr. congruence.
  - injection H as -> ->. rewrite N.eqb_refl. apply IH. reflexivity.
Qed.

Lemma mem_In (x : str) (l : list str) : mem x l = true <-> In x l.
Proof.
  induction l as [|y l IH]; simpl; [split; [discriminate | tauto]|].
  rewrite orb_true_iff, IH, eqb_eq. intuition congruence.
Qed.

Lemma mem_not_In (x : str) (l : list str) : mem x l = false <-> ~ In x l.
Proof.
  rewrite <- mem_In. destruct (mem x l); split; congruence.
Qed.

Lemma distinct_NoDup (l : list str) : distinct l = true -> NoDup l.
Proof.
  induction l as [|x l IH]; simpl; intros H; [constructor|].
  apply andb_prop in H as [Hx Hl]. constructor; [|exact (IH Hl)].
  apply mem_not_In. destruct (mem x l); [discriminate | reflexivity].
Qed.

Lemma dict_get_key {V : Type} (d : dict V) (k : str) (v : V) :
  dict_get d k = Some v -> In k (dict_keys d).
Proof.
  induction d as [|[k' v'] d IH]; simpl; [discriminate|].
  destruct (PyStr.eqb k k') eqn:E.
  - apply eqb_eq in E. intros _. left. congruence.
  - intros H. right. exact (IH H).
Qed.

(** The valid languages are those whose code is not empty. *)
Lemma valid_langs_In (d : dict str) (lang : str) :
  In lang (valid_langs d)
  <-> exists code, dict_get d lang = Some code /\ code <> [].
Proof.
  unfold valid_langs. rewrite filter_In. split.
  - intros [_ H]. destruct (dict_get d lang) as [code|]; [|discriminate].
    exists code. split; [reflexivity|]. intros ->. discriminate H.
  - intros (code & Hget & Hne). split; [exact (dict_get_key d lang code Hget)|].
    rewrite Hget. destruct code; [congruence | reflexivity].
Qed.

Lemma valid_langs_NoDup (d : dict str) :
  NoDup (dict_keys d) -> NoDup (valid_langs d).
Proof. intros H. unfold valid_langs. apply NoDup_filter. exact H. Qed.

Lemma set_source_run (lang : str) (self : translator) :
  set_source lang self
  = if mem lang (supported_src_list self)
    then mkRun (inr tt) (set_lang_source lang self) []
    else mkRun (inl (InvalidSourceOrTargetLanguage
                       (lit "Invalid source: " ++ lang ++ [LF])
                       (join [LF] (supported_src_list self))))
           self [].
Proof.
  unfold set_source, check_language_support, bind. simpl.
  destruct (mem lang (supported_src_list self)); reflexivity.
Qed.

Lemma set_target_run (lang : str) (self : translator) :
  set_target lang self
  = if mem lang (supported_tgt_list self)
    then mkRun (inr tt) (set_lang_target lang self) []
    else mkRun (inl (InvalidSourceOrTargetLanguage
                       (lit "Invalid target: " ++ lang ++ [LF])
                       (join [LF] (supported_tgt_list self))))
           self [].
Proof.
  unfold set_target, check_language_support, bind. simpl.
  destruct (mem lang (supported_tgt_list self)); reflexivity.
Qed.

(** C5: on an instance whose list of valid languages is the one computed
    from its catalog, a setter called with a language of the supported
    list succeeds and assigns it; called with any other language it
    raises [InvalidSourceOrTargetLanguage], leaves the instance as it
    was, and its message is the valid languages joined by line feeds:
    each language whose catalog code is not empty, and each once. *)
Theorem set_language_checked (self : translator) (lang : str) :
  catalog_in_step self ->
  (In lang (supported_src_list self) ->
   set_source lang self = mkRun (inr tt) (set_lang_source lang self) [])
  /\ (In lang (supported_tgt_list self) ->
      set_target lang self = mkRun (inr tt) (set_lang_target lang self) [])
  /\ exists valid,
       NoDup valid
       /\ (forall l, In l valid
                     <-> exists code,
                           dict_get (lang_map self) l = Some code /\ code <> [])
       /\ (~ In lang (supported_src_list self) ->
           set_source lang self
           = mkRun (inl (InvalidSourceOrTargetLanguage
                           (lit "Invalid source: " ++ lang ++ [LF])
                           (join [LF] valid)))
               self [])
       /\ (~ In lang (supported_tgt_list self) ->
           set_target lang self
           = mkRun (inl (InvalidSourceOrTargetLanguage
                           (lit "Invalid target: " ++ lang ++ [LF])
                           (join [LF] valid)))
               self []).
Proof.
  intros [Hkeys Hvalid].
  split; [|split].
  - intros Hin. rewrite set_source_run.
    apply mem_In in Hin. rewrite Hin. reflexivity.
  - intros Hin. rewrite set_target_run.
    apply mem_In in Hin. rewrite Hin. reflexivity.
  - exists (valid_lang_list self). split; [|split; [|split]].
    + rewrite Hvalid. apply valid_langs_NoDup. exact Hkeys.
    + intros l. rewrite Hvalid. apply valid_langs_In.
    + intros Hout. rewrite set_source_run.
      apply mem_not_In in Hout. rewrite Hout. reflexivity.
    + intros Hout. rewrite set_target_run.
      apply mem_not_In in Hout. rewrite Hout. reflexivity.
Qed.

Lemma english_instance_in_step : catalog_in_step english_instance.
Proof.
  split; [apply distinct_NoDup|]; reflexivity.
Qed.

Lemma set_language_checked_witness :
  set_source (lit "English") english_instance
  = mkRun (inr tt) (set_lang_source (lit "English") english_instance) []
  /\ set_target (lit "Auto") english_instance
     = mkRun (inl (InvalidSourceOrTargetLanguage
                     (lit "Invalid target: Auto" ++ [LF]) (lit "English")))
         english_instance [].
Proof.
  destruct (set_language_checked english_instance (lit "English")
              english_instance_in_step) as (Hs & _ & _).
  destruct (set_language_checked english_instance (lit "Auto")
              english_instance_in_step) as (_ & _ & valid & _ & _ & _ & Ht).
  split.
  - apply Hs. left. reflexivity.
  - reflexivity.
Defined.

(** C9: a setter that raises [InvalidSourceOrTargetLanguage] leaves the
    current source and the current target language as they were, for
    the check comes before the assignment. *)
Theorem set_language_failure_atomic (self : translator) (lang arg message : str)
    (setter : str -> M unit) :
  setter = set_source \/ setter = set_target ->
  outcome (setter lang self) = inl (InvalidSourceOrTargetLanguage arg message) ->
  lang_source (self_after (setter lang self)) = lang_source self
  /\ lang_target (self_after (setter lang self)) = lang_target self
  /\ self_after (setter lang self) = self.
Proof.
  intros [-> | ->].
  - rewrite set_source_run.
    destruct (mem lang (supported_src_list self)); simpl;
      [discriminate | auto].
  - rewrite set_target_run.
    destruct (mem lang (supported_tgt_list self)); simpl;
      [discriminate | auto].
Qed.

Lemma set_language_failure_atomic_witness :
  lang_source (self_after (set_target (lit "Auto") english_instance))
  = lit "English"
  /\ lang_target (self_after (set_target (lit "Auto") english_instance))
     = lit "English".
Proof.
  destruct (set_language_failure_atomic english_instance (lit "Auto")
              (lit "Invalid target: Auto" ++ [LF]) (lit "English") set_target
              (or_intror eq_refl) eq_refl) as (Hs & Ht & _).
  split; [exact Hs | exact Ht].
Defined.

(** ** Running the monad step by step *)

Lemma run_eta {A : Type} (r : run A) :
  mkRun (outcome r) (self_after r) (calls r) = r.
Proof. destruct r. reflexivity. Qed.

Lemma bind_modify {B : Type} (f : translator -> translator)
    (k : unit -> M B) (self : translator) :
  bind (modify f) k self = k tt (f self).
Proof. unfold bind, modify. simpl. apply run_eta. Qed.

Lemma bind_get {B : Type} (k : translator -> M B) (self : translator) :
  bind get k self = k self self.
Proof. unfold bind, get. simpl. apply run_eta. Qed.

Lemma bind_ret {A B : Type} (a : A) (k : A -> M B) (self : translator) :
  bind (ret a) k self = k a self.
Proof. unfold bind, ret. simpl. apply run_eta. Qed.

(** A quiet step that returns hands over to what follows. *)
Lemma bind_returns {A B : Type} (m : M A) (k : A -> M B)
    (self self' : translator) (a : A) :
  m self = mkRun (inr a) self' [] -> bind m k self = k a self'.
Proof. intros H. unfold bind. rewrite H. simpl. apply run_eta. Qed.

Lemma bind_raises {A B : Type} (m : M A) (k : A -> M B)
    (self self' : translator) (e : exn) (c : list event) :
  m self = mkRun (inl e) self' c -> bind m k self = mkRun (inl e) self' c.
Proof. intros H. unfold bind. rewrite H. reflexivity. Qed.

Lemma try_except_returns {A : Type} (body : M A) (handler : exn -> M A)
    (self self' : translator) (a : A) (c : list event) :
  body self = mkRun (inr a) self' c ->
  try_except body handler self = mkRun (inr a) self' c.
Proof. intros H. unfold try_except. rewrite H. reflexivity. Qed.

Lemma try_except_raises {A : Type} (body : M A) (handler : exn -> M A)
    (self self' : translator) (e : exn) :
  body self = mkRun (inl e) self' [] ->
  try_except body handler self = handler e self'.
Proof. intros H. unfold try_except. rewrite H. simpl. apply run_eta. Qed.

(** ** Construction *)

Section Construction.

Variable module_dict : list (str * nat).
Variable B : backend.

Local Abbreviation init := (__init__ module_dict B).
Local Abbreviation construct' := (construct module_dict B).
Local Abbreviation start := (before_setup B module_dict).

(** When the setup raises, [__init__] stops there. *)
Lemma init_setup_raises (lang_source lang_target : str) (r : bool)
    (kwargs : dict value) (e : exn) :
  _setup_translator B (start lang_source lang_target kwargs) = inl e ->
  init lang_source lang_target r kwargs fresh
  = mkRun (inl (if is_MissingTranslatorParams e
                then e
                else TranslatorSetupFailure e))
      (start lang_source lang_target kwargs) [].
Proof.
  intros H. unfold __init__, BaseModule_init.
  rewrite !bind_modify.
  change (set_postprocess_hooks [] _)
    with (start lang_source lang_target kwargs).
  assert (Hs : setup_translator B (start lang_source lang_target kwargs)
               = mkRun (inl e) (start lang_source lang_target kwargs) []).
  { unfold setup_translator. rewrite H. reflexivity. }
  apply bind_raises.
  rewrite (try_except_raises _ _ _ _ _ Hs).
  destruct (is_MissingTranslatorParams e); reflexivity.
Qed.

(** C6: when [_setup_translator] raises [MissingTranslatorParams],
    construction raises that very exception; when it raises another
    exception, construction raises [TranslatorSetupFailure] holding it;
    either way the caller gets an exception and no instance. *)
Theorem construct_setup_raises (lang_source lang_target : str) (r : bool)
    (kwargs : dict value) (e : exn) :
  _setup_translator B (start lang_source lang_target kwargs) = inl e ->
  (is_MissingTranslatorParams e = true ->
   construct' lang_source lang_target r kwargs = inl e)
  /\ (is_MissingTranslatorParams e = false ->
      construct' lang_source lang_target r kwargs
      = inl (TranslatorSetupFailure e))
  /\ forall self, construct' lang_source lang_target r kwargs <> inr self.
Proof.
  intros H. unfold construct.
  rewrite (init_setup_raises lang_source lang_target r kwargs e H). simpl.
  split; [|split].
  - intros ->. reflexivity.
  - intros ->. reflexivity.
  - intros self. discriminate.
Qed.

Lemma first_is_member (first : str) (rest : list str) :
  mem first (first :: rest) = true.
Proof. apply mem_In. left. reflexivity. Qed.

(** The fallback of [__init__]: both languages are set to the first
    entries of the supported lists. *)
Lemma fallback_run (self : translator) (first : str) (rest : list str) :
  valid_lang_list self = first :: rest ->
  (self' <- get ;;
   lang_source <- first_item (supported_src_list self') ;;
   self'' <- get ;;
   lang_target <- first_item (supported_tgt_list self'') ;;
   set_source lang_source ;;; set_target lang_target) self
  = mkRun (inr tt) (set_lang_target first (set_lang_source first self)) [].
Proof.
  intros V. pose proof (first_is_member first rest) as Hfirst.
  rewrite bind_get. unfold supported_src_list at 1. rewrite V.
  unfold first_item at 1. rewrite bind_ret, bind_get.
  unfold supported_tgt_list at 1. rewrite V.
  unfold first_item at 1. rewrite bind_ret.
  rewrite (bind_returns _ _ self (set_lang_source first self) tt).
  - rewrite set_target_run. unfold supported_tgt_list.
    change (valid_lang_list (set_lang_source first self))
      with (valid_lang_list self).
    rewrite V, Hfirst. reflexivity.
  - rewrite set_source_run. unfold supported_src_list.
    rewrite V, Hfirst. reflexivity.
Qed.

(** The language step of [__init__] when a requested language is not
    valid and the fallback is on. *)
Lemma init_languages_fallback (lang_source' lang_target' : str)
    (self : translator) (first : str) (rest : list str)
    (handler : exn -> M unit) :
  valid_lang_list self = first :: rest ->
  mem lang_source' (first :: rest) = false
  \/ mem lang_target' (first :: rest) = false ->
  (forall arg message self',
      valid_lang_list self' = first :: rest ->
      handler (InvalidSourceOrTargetLanguage arg message) self'
      = mkRun (inr tt) (set_lang_target first (set_lang_source first self')) []) ->
  exists self',
    try_except (set_source lang_source' ;;; set_target lang_target')
      handler self
    = mkRun (inr tt) self' []
    /\ lang_source self' = first /\ lang_target self' = first
    /\ valid_lang_list self' = first :: rest.
Proof.
  intros V Hbad Hh.
  destruct (mem lang_source' (first :: rest)) eqn:Es.
  - destruct Hbad as [Hbad|Hbad]; [discriminate|].
    exists (set_lang_target first
              (set_lang_source first (set_lang_source lang_source' self))).
    split; [|repeat split; exact V].
    rewrite (try_except_raises _ _ self
               (set_lang_source lang_source' self)
               (InvalidSourceOrTargetLanguage
                  (lit "Invalid target: " ++ lang_target' ++ [LF])
                  (join [LF] (first :: rest)))).
    + apply Hh. exact V.
    + rewrite (bind_returns _ _ self (set_lang_source lang_source' self) tt).
      * rewrite set_target_run. unfold supported_tgt_list.
        change (valid_lang_list (set_lang_source lang_source' self))
          with (valid_lang_list self).
        rewrite V, Hbad. reflexivity.
      * rewrite set_source_run. unfold supported_src_list.
        rewrite V, Es. reflexivity.
  - exists (set_lang_target first (set_lang_source first self)).
    split; [|repeat split; exact V].
    rewrite (try_except_raises _ _ self self
               (InvalidSourceOrTargetLanguage
                  (lit "Invalid source: " ++ lang_source' ++ [LF])
                  (join [LF] (first :: rest)))).
    + apply Hh. exact V.
    + apply bind_raises. rewrite set_source_run. unfold supported_src_list.
      rewrite V, Es. reflexivity.
Qed.

(** C7, as amended: when [_setup_translator] returns and leaves at
    least one language with a code, a construction with
    [raise_unsupported_lang = False] whose requested source or target
    language is not valid succeeds, and the instance's current source
    and target languages are the first entries of its supported source
    and target lists. *)
Theorem construct_fallback (lang_source' lang_target' : str)
    (kwargs : dict value) (after_setup : translator) :
  _setup_translator B (start lang_source' lang_target' kwargs)
  = inr after_setup ->
  valid_langs (lang_map after_setup) <> [] ->
  ~ In lang_source' (valid_langs (lang_map after_setup))
  \/ ~ In lang_target' (valid_langs (lang_map after_setup)) ->
  exists self,
    construct' lang_source' lang_target' false kwargs = inr self
    /\ hd_error (supported_src_list self) = Some (lang_source self)
    /\ hd_error (supported_tgt_list self) = Some (lang_target self).
Proof.
  intros Hsetup Hne Hbad.
  destruct (valid_langs (lang_map after_setup)) as [|first rest] eqn:V;
    [congruence|].
  assert (Hbad' : mem lang_source' (first :: rest) = false
                  \/ mem lang_target' (first :: rest) = false).
  { destruct Hbad as [H|H]; [left|right]; apply mem_not_In; exact H. }
  set (s2 := set_valid_lang_list (valid_langs (lang_map after_setup))
               after_setup).
  assert (V2 : valid_lang_list s2 = first :: rest) by exact V.
  unfold construct, __init__, BaseModule_init.
  rewrite !bind_modify.
  change (set_postprocess_hooks [] _)
    with (start lang_source' lang_target' kwargs).
  rewrite (bind_returns _ _ (start lang_source' lang_target' kwargs)
             after_setup tt).
  2:{ apply try_except_returns. unfold setup_translator.
      rewrite Hsetup. reflexivity. }
  rewrite bind_modify. fold s2.
  match goal with
  | |- context [try_except ?body ?h] =>
      destruct (init_languages_fallback lang_source' lang_target' s2
                  first rest h V2 Hbad') as (s3 & Hrun & Hsrc & Htgt & V3)
  end.
  { intros arg message self' V'. cbv beta iota.
    exact (fallback_run self' first rest V'). }
  rewrite (bind_returns _ _ s2 s3 tt Hrun).
  destruct (cht_require_convert B).
  - rewrite register_postprocess_hooks_run. cbv beta iota.
    eexists. split; [reflexivity|].
    unfold supported_src_list, supported_tgt_list.
    cbn [self_after valid_lang_list lang_source lang_target
         set_postprocess_hooks].
    rewrite V3, Hsrc, Htgt. split; reflexivity.
  - eexists. split; [reflexivity|].
    unfold supported_src_list, supported_tgt_list.
    cbn [self_after ret].
    rewrite V3, Hsrc, Htgt. split; reflexivity.
Qed.

(** *** The constructed instance has its catalog in step *)

Lemma keeps_ret (P : translator -> Prop) {A : Type} (a : A) :
  keeps P (ret a).
Proof. intros self H. exact H. Qed.

Lemma keeps_raise (P : translator -> Prop) {A : Type} (e : exn) :
  keeps P (@raise A e).
Proof. intros self H. exact H. Qed.

Lemma keeps_get (P : translator -> Prop) : keeps P get.
Proof. intros self H. exact H. Qed.

Lemma keeps_modify (P : translator -> Prop) (f : translator -> translator) :
  (forall self, P self -> P (f self)) -> keeps P (modify f).
Proof. intros Hf self H. exact (Hf self H). Qed.

Lemma keeps_bind (P : translator -> Prop) {A C : Type} (m : M A)
    (k : A -> M C) :
  keeps P m -> (forall a, keeps P (k a)) -> keeps P (bind m k).
Proof.
  intros Hm Hk self H. unfold bind. specialize (Hm self H).
  destruct (m self) as [[e|a] s' c]; simpl in *; [exact Hm|].
  exact (Hk a s' Hm).
Qed.

Lemma keeps_try_except (P : translator -> Prop) {A : Type} (body : M A)
    (handler : exn -> M A) :
  keeps P body -> (forall e, keeps P (handler e)) ->
  keeps P (try_except body handler).
Proof.
  intros Hm Hh self H. unfold try_except. specialize (Hm self H).
  destruct (body self) as [[e|a] s' c]; simpl in *; [|exact Hm].
  exact (Hh e s' Hm).
Qed.

Lemma keeps_first_item (P : translator -> Prop) (l : list str) :
  keeps P (first_item l).
Proof. destruct l; [apply keeps_raise | apply keeps_ret]. Qed.

Lemma keeps_check_language_support (P : translator -> Prop)
    (check_type lang : str) (setter : str -> M unit) :
  (forall l, keeps P (setter l)) ->
  keeps P (check_language_support check_type setter lang).
Proof.
  intros Hs. unfold check_language_support.
  apply keeps_bind; [apply keeps_get|]. intros self.
  destruct (negb _); [apply keeps_raise | apply Hs].
Qed.

Lemma keeps_for_each (P : translator -> Prop) {A : Type} (l : list A)
    (body : A -> M unit) :
  (forall a, keeps P (body a)) -> keeps P (for_each l body).
Proof.
  intros Hb. induction l as [|a l IH]; [apply keeps_ret|].
  simpl. apply keeps_bind; [apply Hb | intros _; exact IH].
Qed.

Lemma keeps_register (P : translator -> Prop) (arg : callbacks_arg) :
  (forall hooks self, P self -> P (set_postprocess_hooks hooks self)) ->
  keeps P (register_postprocess_hooks arg).
Proof.
  intros Hp. destruct arg as [|cb|l]; unfold register_postprocess_hooks;
    [apply keeps_ret| |];
    apply keeps_for_each; intros a; apply keeps_modify;
    intros self H; apply Hp; exact H.
Qed.

(** X16: the list of valid languages of an instance that construction
    returns is in step with its catalog, provided the setup left the
    catalog a dictionary: it holds the languages whose code is not
    empty, in the order of the catalog. *)
Lemma construct_in_step (lang_source' lang_target' : str) (r : bool)
    (kwargs : dict value) (self : translator) :
  (forall s1,
      _setup_translator B (start lang_source' lang_target' kwargs) = inr s1 ->
      NoDup (dict_keys (lang_map s1))) ->
  construct' lang_source' lang_target' r kwargs = inr self ->
  catalog_in_step self.
Proof.
  intros Hwf. unfold construct.
  destruct (_setup_translator B (start lang_source' lang_target' kwargs))
    as [e|s1] eqn:Hsetup.
  - rewrite (init_setup_raises lang_source' lang_target' r kwargs e Hsetup).
    discriminate.
  - specialize (Hwf s1 eq_refl).
    set (s2 := set_valid_lang_list (valid_langs (lang_map s1)) s1).
    assert (H2 : catalog_in_step s2) by (split; [exact Hwf | reflexivity]).
    unfold __init__, BaseModule_init.
    rewrite !bind_modify.
    change (set_postprocess_hooks [] _)
      with (start lang_source' lang_target' kwargs).
    rewrite (bind_returns _ _ (start lang_source' lang_target' kwargs) s1 tt).
    2:{ apply try_except_returns. unfold setup_translator.
        rewrite Hsetup. reflexivity. }
    rewrite bind_modify. fold s2.
    match goal with
    | |- match outcome (?m s2) with _ => _ end = _ -> _ =>
        assert (Hk : keeps catalog_in_step m)
    end.
    { assert (Hsrc : forall l, keeps catalog_in_step (set_source l)).
      { intros l. apply keeps_check_language_support. intros l'.
        apply keeps_modify. intros [] H. exact H. }
      assert (Htgt : forall l, keeps catalog_in_step (set_target l)).
      { intros l. apply keeps_check_language_support. intros l'.
        apply keeps_modify. intros [] H. exact H. }
      apply keeps_bind.
      - apply keeps_try_except.
        + apply keeps_bind; [apply Hsrc | intros _; apply Htgt].
        + intros e. destruct e; try apply keeps_raise.
          destruct r; [apply keeps_raise|].
          apply keeps_bind; [apply keeps_get|]. intros x.
          apply keeps_bind; [apply keeps_first_item|]. intros ls.
          apply keeps_bind; [apply keeps_get|]. intros y.
          apply keeps_bind; [apply keeps_first_item|]. intros lt.
          apply keeps_bind; [apply Hsrc | intros _; apply Htgt].
      - intros _. destruct (cht_require_convert B); [|apply keeps_ret].
        apply keeps_register. intros hooks [] H. exact H. }
    specialize (Hk s2 H2).
    destruct (outcome _); [discriminate|].
    intros E. injection E as <-. exact Hk.
Qed.

End Construction.

Lemma construct_setup_raises_witness :
  construct [] (failing_backend (MissingTranslatorParams (lit "api_key")))
    (lit "English") (lit "English") true []
  = inl (MissingTranslatorParams (lit "api_key"))
  /\ construct [] (failing_backend (BackendError 7))
       (lit "English") (lit "English") true []
     = inl (TranslatorSetupFailure (BackendError 7)).
Proof.
  split.
  - refine (proj1 (construct_setup_raises []
                     (failing_backend (MissingTranslatorParams (lit "api_key")))
                     (lit "English") (lit "English") true []
                     (MissingTranslatorParams (lit "api_key")) eq_refl) eq_refl).
  - refine (proj1 (proj2 (construct_setup_raises []
                     (failing_backend (BackendError 7))
                     (lit "English") (lit "English") true []
                     (BackendError 7) eq_refl)) eq_refl).
Defined.

(** The test backend of the spec, constructed for English. *)
Example construct_english :
  construct [] upper_backend (lit "English") (lit "English") true []
  = inr english_instance.
Proof. vm_compute. reflexivity. Qed.

Lemma construct_fallback_witness :
  exists self,
    construct [] upper_backend (lit "Klingon") (lit "English") false []
    = inr self
    /\ hd_error (supported_src_list self) = Some (lang_source self)
    /\ hd_error (supported_tgt_list self) = Some (lang_target self).
Proof.
  apply (construct_fallback [] upper_backend (lit "Klingon") (lit "English") []
           (set_lang_map (dict_set LANGMAP_GLOBAL (lit "English") (lit "en"))
              (before_setup upper_backend [] (lit "Klingon") (lit "English") []))).
  - reflexivity.
  - vm_compute. discriminate.
  - left. apply mem_not_In. vm_compute. reflexivity.
Defined.

(** C7, as stated, fails: a backend whose setup gives no language a
    code has empty supported lists; the requested language is then
    invalid, and the fallback's [supported_src_list[0]] raises
    [IndexError], so the construction does not succeed. *)
Lemma construct_fallback_counterexample :
  _setup_translator bare_backend
    (before_setup bare_backend [] (lit "English") (lit "English") [])
  = inr (before_setup bare_backend [] (lit "English") (lit "English") [])
  /\ ~ In (lit "English")
         (valid_langs
            (lang_map
               (before_setup bare_backend [] (lit "English") (lit "English") [])))
  /\ construct [] bare_backend (lit "English") (lit "English") false []
     = inl IndexError
  /\ ~ exists self,
         construct [] bare_backend (lit "English") (lit "English") false []
         = inr self.
Proof.
  assert (E : construct [] bare_backend (lit "English") (lit "English") false []
              = inl IndexError) by (vm_compute; reflexivity).
  split; [reflexivity|].
  split; [apply mem_not_In; vm_compute; reflexivity|].
  split; [exact E|].
  intros [self H]. rewrite E in H. discriminate H.
Qed.

(** ** delay *)

Section Delay.

Variable float_of_int : Z -> option float.
Variable float_of_str : str -> option float.

Local Abbreviation delay' := (delay float_of_int float_of_str).
Local Abbreviation py_float' := (py_float float_of_int float_of_str).

(** C10: [delay] always returns and never raises, touches nothing and
    calls nothing; it returns [float(params['delay'])] when the key is
    there, its value is truthy and [float] accepts it, and [0.0] when the
    key is missing, the value is falsy, or [float] raises. *)
Theorem delay_total (self : translator) :
  exists f,
    delay' self = mkRun (inr f) self []
    /\ f = match dict_get (params self) (lit "delay") with
           | Some v =>
               if truthy v
               then match py_float' v with
                    | inr x => x
                    | inl _ => 0%float
                    end
               else 0%float
           | None => 0%float
           end.
Proof.
  unfold delay. rewrite bind_get. unfold dict_has.
  destruct (dict_get (params self) (lit "delay")) as [v|];
    [|eexists; split; reflexivity].
  destruct (truthy v); [|eexists; split; reflexivity].
  destruct (py_float' v) as [e|x] eqn:E.
  - rewrite (try_except_raises _ _ self self e);
      [eexists; split; reflexivity|].
    unfold lift. reflexivity.
  - rewrite (try_except_returns _ _ self self x []);
      [eexists; split; reflexivity|].
    unfold lift. reflexivity.
Qed.

End Delay.

Example delay_of_text :
  outcome (delay no_float_of_int no_float_of_str
             (set_params [(lit "delay", VStr (lit "soon"))] english_instance))
  = inr 0%float.
Proof. reflexivity. Qed.

Example delay_of_float :
  outcome (delay no_float_of_int no_float_of_str
             (set_params [(lit "delay", VFloat 1.5%float)] english_instance))
  = inr 1.5%float.
Proof. reflexivity. Qed.

Example delay_of_zero :
  outcome (delay no_float_of_int no_float_of_str
             (set_params [(lit "delay", VInt 0)] english_instance))
  = inr 0%float.
Proof. reflexivity. Qed.

(** ** More on the codec *)

Lemma replace_LF_filter (s : str) :
  replace [LF] [] s = filter (fun c => negb (N.eqb LF c)) s.
Proof.
  unfold replace. induction s as [|c s IH]; [reflexivity|].
  change (replace_go [LF] [] 0 (c :: s))
    with (if startswith [LF] (c :: s)
          then [] ++ replace_go [LF] [] (List.length [LF] - 1) s
          else c :: replace_go [LF] [] 0 s).
  change (startswith [LF] (c :: s)) with (N.eqb LF c && true).
  change (filter (fun c => negb (N.eqb LF c)) (c :: s))
    with (if negb (N.eqb LF c)
          then c :: filter (fun c => negb (N.eqb LF c)) s
          else filter (fun c => negb (N.eqb LF c)) s).
  rewrite <- IH. destruct (N.eqb LF c); reflexivity.
Qed.

Lemma split_go_nonempty (sep : str) (s : str) :
  forall skip, split_go sep skip s <> [].
Proof.
  induction s as [|c s IH]; intros skip; [discriminate|].
  destruct skip as [|k].
  - change (split_go sep 0 (c :: s))
      with (if startswith sep (c :: s)
            then [] :: split_go sep (List.length sep - 1) s
            else push c (split_go sep 0 s)).
    destruct (startswith sep (c :: s)); [discriminate|].
    specialize (IH 0). destruct (split_go sep 0 s); [congruence|discriminate].
  - apply IH.
Qed.

Lemma breaker_nonempty (textblk_break : str) : breaker textblk_break <> [].
Proof.
  unfold breaker. destruct (replace [LF] [] textblk_break); discriminate.
Qed.

(** X1: whatever [textblk_break] is, [text2textlist] never meets the
    empty separator of [str.split]: it returns, and returns at least
    one fragment. *)
Theorem text2textlist_total (textblk_break text : str) :
  exists text_list,
    text2textlist textblk_break text = Some text_list /\ text_list <> [].
Proof.
  unfold text2textlist, split.
  pose proof (breaker_nonempty textblk_break) as Hb.
  destruct (breaker textblk_break) as [|c sep] eqn:E; [congruence|].
  eexists. split; [reflexivity|].
  pose proof (split_go_nonempty (c :: sep) text 0) as Hs.
  destruct (split_go (c :: sep) 0 text); [congruence | discriminate].
Qed.

(** X2: the separator [text2textlist] splits on is [textblk_break]
    without its line feeds; it holds no line feed then, and it is the
    single line feed exactly when [textblk_break] holds nothing else. *)
Theorem breaker_cases (textblk_break : str) :
  let kept := filter (fun c => negb (N.eqb LF c)) textblk_break in
  (kept = [] <-> Forall (eq LF) textblk_break)
  /\ (kept = [] -> breaker textblk_break = [LF])
  /\ (kept <> [] ->
      breaker textblk_break = kept /\ ~ In LF (breaker textblk_break)).
Proof.
  intros kept.
  assert (Hk : kept = filter (fun c => negb (N.eqb LF c)) textblk_break)
    by reflexivity.
  clearbody kept. split; [|split].
  - rewrite Hk. clear Hk. induction textblk_break as [|c brk IH].
    + split; [constructor | reflexivity].
    + change (filter (fun c => negb (N.eqb LF c)) (c :: brk))
        with (if negb (N.eqb LF c)
              then c :: filter (fun c => negb (N.eqb LF c)) brk
              else filter (fun c => negb (N.eqb LF c)) brk).
      destruct (N.eqb LF c) eqn:E; cbn [negb].
      * apply N.eqb_eq in E. rewrite IH. split.
        -- intros H. constructor; assumption.
        -- intros H. inversion H. assumption.
      * split; [discriminate|]. intros H. inversion H as [|x l Hx Hl]; subst.
        rewrite N.eqb_refl in E. discriminate.
  - intros H. unfold breaker. rewrite replace_LF_filter, <- Hk, H.
    reflexivity.
  - intros H. unfold breaker. rewrite replace_LF_filter, <- Hk.
    destruct kept as [|c k]; [congruence|].
    split; [reflexivity|]. intros Hin.
    assert (Hin' : In LF (filter (fun c => negb (N.eqb LF c)) textblk_break))
      by (rewrite <- Hk; exact Hin).
    apply filter_In in Hin' as [_ Hin'].
    rewrite N.eqb_refl in Hin'. discriminate.
Qed.

Lemma lstrip_idempotent (s : str) : lstrip (lstrip s) = lstrip s.
Proof.
  induction s as [|c s IH]; [reflexivity|].
  simpl. destruct (isspace c) eqn:E; [exact IH|].
  simpl. rewrite E. reflexivity.
Qed.

Lemma lstrip_snoc_kept (c : char) (s : str) :
  isspace c = false -> lstrip (s ++ [c]) = lstrip s ++ [c].
Proof.
  intros Hc. induction s as [|x s IH]; simpl.
  - rewrite Hc. reflexivity.
  - destruct (isspace x); [exact IH | reflexivity].
Qed.

Lemma rstrip_cons_kept (c : char) (s : str) :
  isspace c = false -> rstrip (c :: s) = c :: rstrip s.
Proof.
  intros Hc. unfold rstrip. simpl.
  rewrite (lstrip_snoc_kept c (rev s) Hc), rev_app_distr. reflexivity.
Qed.

Lemma rstrip_idempotent (s : str) : rstrip (rstrip s) = rstrip s.
Proof.
  unfold rstrip. rewrite rev_involutive, lstrip_idempotent. reflexivity.
Qed.

Lemma lstrip_head (s : str) :
  lstrip s = [] \/ exists c r, lstrip s = c :: r /\ isspace c = false.
Proof.
  induction s as [|c s IH]; [left; reflexivity|].
  simpl. destruct (isspace c) eqn:E; [exact IH|].
  right. exists c, s. split; [reflexivity | exact E].
Qed.

(** A stripped string has no white space left at either end. *)
Lemma strip_clean (s : str) :
  lstrip (rstrip (lstrip s)) = rstrip (lstrip s)
  /\ rstrip (rstrip (lstrip s)) = rstrip (lstrip s).
Proof.
  split; [|apply rstrip_idempotent].
  destruct (lstrip_head s) as [E | (c & r & E & Hc)]; rewrite E.
  - reflexivity.
  - rewrite (rstrip_cons_kept c r Hc). simpl. rewrite Hc. reflexivity.
Qed.

(** X3: no fragment returned by [text2textlist] begins or ends with
    white space: stripping it again, on either side, changes nothing. *)
Theorem text2textlist_stripped (textblk_break text : str)
    (text_list : list str) (t : str) :
  text2textlist textblk_break text = Some text_list ->
  In t text_list ->
  lstrip t = t /\ rstrip t = t.
Proof.
  unfold text2textlist. destruct (split (breaker textblk_break) text) as [l|];
    [|discriminate].
  intros E Hin. injection E as <-.
  apply in_map_iff in Hin as (x & <- & _). apply strip_clean.
Qed.

Lemma text2textlist_stripped_witness :
  lstrip (lit "b c") = lit "b c" /\ rstrip (lit "b c") = lit "b c".
Proof.
  apply (text2textlist_stripped default_break (lit " a ### b c  ###")
           [lit "a"; lit "b c"; lit ""] (lit "b c")).
  - reflexivity.
  - right. left. reflexivity.
Defined.

(** ** More on translate *)

Section TranslateMore.

Variable text_is_empty : text -> bool.
Variable chs2cht : str -> str.
Variable user_hook : nat -> str -> str.
Variable B : backend.

Local Abbreviation hv := (hook_value chs2cht user_hook).
Local Abbreviation translate' := (translate text_is_empty chs2cht user_hook B).

Lemma backend_events_hooks (hooks : list callback) (l : list str) :
  backend_events (flat_map (fun t => map (fun c => CallHook c t) hooks) l) = [].
Proof.
  assert (Hitem : forall t,
             backend_events (map (fun c => CallHook c t) hooks) = []).
  { intros t. unfold backend_events.
    induction hooks as [|c hooks IHh]; [reflexivity | exact IHh]. }
  unfold backend_events in *. induction l as [|t l IH]; [reflexivity|].
  simpl flat_map. rewrite filter_app, IH, app_nil_r. apply Hitem.
Qed.

Lemma backend_events_scalar (hooks : list callback) :
  forall (s : str) (self : translator),
    backend_events (calls (hooks_on_scalar chs2cht user_hook hooks s self)) = [].
Proof.
  induction hooks as [|c hooks IH]; intros s self; [reflexivity|].
  simpl. unfold bind. rewrite call_hook_run. simpl.
  exact (IH (hv self c s) self).
Qed.

(** What [translate] returns for a list yields, item by item, as many
    items as the list. *)
Lemma translate_items_length (self : translator) (l : list str) (out : text) :
  outcome (translate' (Lst l) self) = inr out ->
  List.length (items out) = List.length l.
Proof.
  unfold translate. destruct (text_is_empty (Lst l)).
  { intros H. injection H as <-. reflexivity. }
  unfold bind, call_translate; simpl.
  destruct (concate_text B); simpl.
  - destruct (_translate B self (Str (textlist2text (textblk_break self) l)))
      as [e|[[s'|l']|]]; simpl; try discriminate.
    + destruct (text2textlist (textblk_break self) s') as [l'|]; simpl;
        [|discriminate].
      destruct (Nat.eqb (List.length l') (List.length l)) eqn:E; simpl;
        [|discriminate].
      apply Nat.eqb_eq in E. rewrite hooks_on_list_run. simpl.
      intros H. injection H as <-. simpl. rewrite length_map. exact E.
    + rewrite repeat_length, Nat.eqb_refl. simpl.
      rewrite hooks_on_list_run. simpl.
      intros H. injection H as <-. simpl.
      rewrite length_map, repeat_length. reflexivity.
  - destruct (_translate B self (Lst l)) as [e|[[s'|l']|]]; simpl;
      try discriminate.
    + destruct (Nat.eqb (List.length s') (List.length l)) eqn:E; simpl;
        [|discriminate].
      apply Nat.eqb_eq in E.
      destruct (postprocess_hooks self) as [|c hooks]; simpl.
      * intros H. injection H as <-. simpl. rewrite length_map. exact E.
      * destruct s' as [|x s']; simpl; [|destruct c; discriminate].
        intros H. injection H as <-. exact E.
    + destruct (Nat.eqb (List.length l') (List.length l)) eqn:E; simpl;
        [|discriminate].
      apply Nat.eqb_eq in E. rewrite hooks_on_list_run. simpl.
      intros H. injection H as <-. simpl. rewrite length_map. exact E.
    + rewrite repeat_length, Nat.eqb_refl. simpl.
      rewrite hooks_on_list_run. simpl.
      intros H. injection H as <-. simpl.
      rewrite length_map, repeat_length. reflexivity.
Qed.

(** [translate] leaves the instance as it was, whatever comes of it. *)
Lemma translate_self_unchanged (self : translator) (text_in : text) :
  self_after (translate' text_in self) = self.
Proof.
  unfold translate. destruct (text_is_empty text_in); [reflexivity|].
  destruct text_in as [s|l]; unfold bind, call_translate; simpl.
  - destruct (_translate B self (Str s)) as [e|[[s'|l']|]]; simpl;
      try reflexivity.
    + destruct (hooks_on_scalar_run chs2cht user_hook
                  (postprocess_hooks self) s' self) as (Ho & Hs & _).
      rewrite Ho. simpl. exact Hs.
    + destruct (postprocess_hooks self); reflexivity.
    + destruct (hooks_on_scalar_run chs2cht user_hook
                  (postprocess_hooks self) [] self) as (Ho & Hs & _).
      rewrite Ho. simpl. exact Hs.
  - destruct (concate_text B); simpl.
    + destruct (_translate B self (Str (textlist2text (textblk_break self) l)))
        as [e|[[s'|l']|]]; simpl; try reflexivity.
      * destruct (text2textlist (textblk_break self) s') as [l'|]; simpl;
          [|reflexivity].
        destruct (Nat.eqb (List.length l') (List.length l)); simpl;
          [|reflexivity].
        rewrite hooks_on_list_run. reflexivity.
      * rewrite repeat_length, Nat.eqb_refl. simpl.
        rewrite hooks_on_list_run. reflexivity.
    + destruct (_translate B self (Lst l)) as [e|[[s'|l']|]]; simpl;
        try reflexivity.
      * destruct (Nat.eqb (List.length s') (List.length l)); simpl;
          [|reflexivity].
        destruct (postprocess_hooks self) as [|c hooks]; simpl;
          [reflexivity|].
        destruct s' as [|x s']; simpl; [reflexivity|].
        destruct c; reflexivity.
      * destruct (Nat.eqb (List.length l') (List.length l)); simpl;
          [|reflexivity].
        rewrite hooks_on_list_run. reflexivity.
      * rewrite repeat_length, Nat.eqb_refl. simpl.
        rewrite hooks_on_list_run. reflexivity.
Qed.

(** X4: when [translate] returns for a list, what it returns has as
    many items as the list, whatever the backend did; a backend that
    returns more or fewer makes it raise. *)
Theorem translate_list_length (self : translator) (l : list str) (out : text) :
  outcome (translate' (Lst l) self) = inr out ->
  len out = List.length l.
Proof.
  intros Hout. rewrite <- (translate_items_length self l out Hout).
  destruct out as [s|o]; [|reflexivity].
  simpl. symmetry. apply length_map.
Qed.

(** X5: with batching on, when the text the backend returns splits
    into another number of fragments than were sent, [translate] raises
    [AssertionError] after the split, before any hook is called, and
    leaves the instance as it was. *)
Theorem translate_count_mismatch (self : translator) (l : list str)
    (s : str) (fragments : list str) :
  concate_text B = true ->
  text_is_empty (Lst l) = false ->
  _translate B self (Str (textlist2text (textblk_break self) l))
  = inr (Some (Str s)) ->
  text2textlist (textblk_break self) s = Some fragments ->
  List.length fragments <> List.length l ->
  translate' (Lst l) self
  = mkRun (inl AssertionError) self
      [DoJoin l; CallBackend (Str (textlist2text (textblk_break self) l));
       DoSplit s].
Proof.
  intros Hc Hne Hb Hs Hlen. unfold translate. rewrite Hne.
  unfold bind, call_translate; simpl. rewrite Hc. simpl.
  rewrite Hb. simpl. rewrite Hs. simpl.
  apply Nat.eqb_neq in Hlen. rewrite Hlen. reflexivity.
Qed.

(** X6: an exception raised by the backend's [_translate] comes out of
    [translate] as it is; no hook was called and the instance is as it
    was. *)
Theorem translate_backend_raises (self : translator) (text_in : text)
    (e : exn) :
  text_is_empty text_in = false ->
  (forall src, _translate B self src = inl e) ->
  outcome (translate' text_in self) = inl e
  /\ self_after (translate' text_in self) = self
  /\ forall cb, hook_calls cb (calls (translate' text_in self)) = 0.
Proof.
  intros Hne Hb. unfold translate. rewrite Hne.
  destruct text_in as [s|l]; unfold bind, call_translate; simpl.
  - rewrite Hb. simpl. repeat split.
  - destruct (concate_text B); simpl; rewrite Hb; simpl; repeat split.
Qed.

(** X7: for an input that is not recognized as empty, [translate]
    calls the backend once, whatever happens afterwards; a list goes
    to it as the single joined text when batching is on. *)
Theorem translate_one_backend_call (self : translator) (text_in : text) :
  text_is_empty text_in = false ->
  backend_events (calls (translate' text_in self))
  = [CallBackend
       match text_in with
       | Lst l =>
           if concate_text B
           then Str (textlist2text (textblk_break self) l)
           else text_in
       | Str _ => text_in
       end].
Proof.
  intros Hne. unfold translate. rewrite Hne.
  destruct text_in as [s|l]; unfold bind, call_translate; simpl.
  - destruct (_translate B self (Str s)) as [e|[[s'|l']|]]; simpl;
      try reflexivity.
    + destruct (hooks_on_scalar_run chs2cht user_hook
                  (postprocess_hooks self) s' self) as (Ho & _ & _).
      pose proof (backend_events_scalar (postprocess_hooks self) s' self)
        as Hbe.
      rewrite Ho. simpl. rewrite app_nil_r.
      unfold backend_events in *. simpl. f_equal. exact Hbe.
    + destruct (postprocess_hooks self); reflexivity.
    + destruct (hooks_on_scalar_run chs2cht user_hook
                  (postprocess_hooks self) [] self) as (Ho & _ & _).
      pose proof (backend_events_scalar (postprocess_hooks self) [] self)
        as Hbe.
      rewrite Ho. simpl. rewrite app_nil_r.
      unfold backend_events in *. simpl. f_equal. exact Hbe.
  - destruct (concate_text B); simpl.
    + destruct (_translate B self (Str (textlist2text (textblk_break self) l)))
        as [e|[[s'|l']|]]; simpl; try reflexivity.
      * destruct (text2textlist (textblk_break self) s') as [l'|]; simpl;
          [|reflexivity].
        destruct (Nat.eqb (List.length l') (List.length l)); simpl;
          [|reflexivity].
        rewrite hooks_on_list_run. simpl. rewrite app_nil_r.
        unfold backend_events. simpl. f_equal. apply backend_events_hooks.
      * rewrite repeat_length, Nat.eqb_refl. simpl.
        rewrite hooks_on_list_run. simpl. rewrite app_nil_r.
        unfold backend_events. simpl. f_equal. apply backend_events_hooks.
    + destruct (_translate B self (Lst l)) as [e|[[s'|l']|]]; simpl;
        try reflexivity.
      * destruct (Nat.eqb (List.length s') (List.length l)); simpl;
          [|reflexivity].
        destruct (postprocess_hooks self) as [|c hooks]; simpl;
          [reflexivity|].
        destruct s' as [|x s']; simpl; [reflexivity|].
        destruct c; reflexivity.
      * destruct (Nat.eqb (List.length l') (List.length l)); simpl;
          [|reflexivity].
        rewrite hooks_on_list_run. simpl. rewrite app_nil_r.
        unfold backend_events. simpl. f_equal. apply backend_events_hooks.
      * rewrite repeat_length, Nat.eqb_refl. simpl.
        rewrite hooks_on_list_run. simpl. rewrite app_nil_r.
        unfold backend_events. simpl. f_equal. apply backend_events_hooks.
Qed.

(** X8: for a single string, the hooks compose: [translate] returns
    what the backend returned after it went through every hook in
    insertion order, each hook receiving what the one before it
    returned. *)
Theorem translate_scalar_composes (self : translator) (s s' : str) :
  text_is_empty (Str s) = false ->
  _translate B self (Str s) = inr (Some (Str s')) ->
  outcome (translate' (Str s) self)
  = inr (Str (compose_hooks chs2cht user_hook self (postprocess_hooks self) s')).
Proof.
  intros Hne Hb. unfold translate. rewrite Hne.
  unfold bind, call_translate; simpl. rewrite Hb. simpl.
  destruct (hooks_on_scalar_run chs2cht user_hook
              (postprocess_hooks self) s' self) as (Ho & _ & _).
  rewrite Ho. reflexivity.
Qed.

(** What the batched path returns when the counts agree. *)
Lemma translate_concat_returns (self : translator) (l : list str)
    (s : str) (fragments : list str) :
  concate_text B = true ->
  text_is_empty (Lst l) = false ->
  _translate B self (Str (textlist2text (textblk_break self) l))
  = inr (Some (Str s)) ->
  text2textlist (textblk_break self) s = Some fragments ->
  List.length fragments = List.length l ->
  outcome (translate' (Lst l) self)
  = inr (Lst (map (fun t => fold_left (fun _ cb => hv self cb t)
                              (postprocess_hooks self) t)
                fragments)).
Proof.
  intros Hc Hne Hb Hs Hlen. unfold translate. rewrite Hne.
  unfold bind, call_translate; simpl. rewrite Hc. simpl.
  rewrite Hb. simpl. rewrite Hs. simpl.
  rewrite Hlen, Nat.eqb_refl. simpl.
  rewrite hooks_on_list_run. reflexivity.
Qed.

Lemma single_hook_composes (self : translator) (hooks : list callback)
    (t : str) :
  List.length hooks <= 1 ->
  fold_left (fun _ cb => hv self cb t) hooks t
  = compose_hooks chs2cht user_hook self hooks t.
Proof.
  destruct hooks as [|c [|c' hooks]]; simpl; intros H;
    [reflexivity | reflexivity | lia].
Qed.

(** X9: with batching on and at most one hook registered, [translate]
    on a list returns the fragments split out of the backend's answer,
    each passed through the hook. *)
Theorem translate_list_single_hook (self : translator) (l : list str)
    (s : str) (fragments : list str) :
  concate_text B = true ->
  text_is_empty (Lst l) = false ->
  _translate B self (Str (textlist2text (textblk_break self) l))
  = inr (Some (Str s)) ->
  text2textlist (textblk_break self) s = Some fragments ->
  List.length fragments = List.length l ->
  List.length (postprocess_hooks self) <= 1 ->
  outcome (translate' (Lst l) self)
  = inr (Lst (map (compose_hooks chs2cht user_hook self (postprocess_hooks self))
                fragments)).
Proof.
  intros Hc Hne Hb Hs Hlen Hone.
  rewrite (translate_concat_returns self l s fragments Hc Hne Hb Hs Hlen).
  do 2 f_equal. apply map_ext. intros t.
  apply single_hook_composes. exact Hone.
Qed.

End TranslateMore.

Lemma translate_list_length_witness :
  len (Lst [lit "A2"; lit "B2"]) = 2.
Proof.
  exact (translate_list_length text_is_empty_spec no_conversion sample_hook
           upper_backend two_hook_instance [lit "a"; lit "b"]
           (Lst [lit "A2"; lit "B2"]) eq_refl).
Defined.

Lemma translate_count_mismatch_witness :
  translate text_is_empty_spec no_conversion sample_hook deaf_backend
    (Lst [lit "a"; lit "b"]) two_hook_instance
  = mkRun (inl AssertionError) two_hook_instance
      [DoJoin [lit "a"; lit "b"];
       CallBackend (Str (lit "a" ++ default_break ++ lit "b"));
       DoSplit (lit "sorry")].
Proof.
  apply (translate_count_mismatch text_is_empty_spec no_conversion sample_hook
           deaf_backend two_hook_instance [lit "a"; lit "b"] (lit "sorry")
           [lit "sorry"]).
  - reflexivity.
  - reflexivity.
  - reflexivity.
  - reflexivity.
  - simpl. lia.
Defined.

Lemma translate_backend_raises_witness :
  outcome (translate text_is_empty_spec no_conversion sample_hook broken_backend
             (Lst [lit "a"; lit "b"]) two_hook_instance)
  = inl (BackendError 404).
Proof.
  refine (proj1 (translate_backend_raises text_is_empty_spec no_conversion
                   sample_hook broken_backend two_hook_instance
                   (Lst [lit "a"; lit "b"]) (BackendError 404) eq_refl _)).
  intros src. reflexivity.
Defined.

Lemma translate_one_backend_call_witness :
  backend_events
    (calls (translate text_is_empty_spec no_conversion sample_hook upper_backend
              (Lst [lit "a"; lit "b"; lit "c"]) two_hook_instance))
  = [CallBackend
       (Str (lit "a" ++ default_break ++ lit "b" ++ default_break ++ lit "c"))].
Proof.
  exact (translate_one_backend_call text_is_empty_spec no_conversion sample_hook
           upper_backend two_hook_instance (Lst [lit "a"; lit "b"; lit "c"])
           eq_refl).
Defined.

Lemma translate_scalar_composes_witness :
  outcome (translate text_is_empty_spec no_conversion sample_hook upper_backend
             (Str (lit "a")) two_hook_instance)
  = inr (Str (lit "A12")).
Proof.
  exact (translate_scalar_composes text_is_empty_spec no_conversion sample_hook
           upper_backend two_hook_instance (lit "a") (lit "A")
           eq_refl eq_refl).
Defined.

Lemma translate_list_single_hook_witness :
  outcome (translate text_is_empty_spec no_conversion sample_hook upper_backend
             (Lst [lit "a"; lit "b"]) one_hook_instance)
  = inr (Lst [lit "A1"; lit "B1"]).
Proof.
  apply (translate_list_single_hook text_is_empty_spec no_conversion sample_hook
           upper_backend one_hook_instance [lit "a"; lit "b"]
           (lit "A" ++ default_break ++ lit "B") [lit "A"; lit "B"]).
  - reflexivity.
  - reflexivity.
  - reflexivity.
  - reflexivity.
  - reflexivity.
  - simpl. lia.
Defined.

(** Splitting what was joined, for the delimiter of [__init__]. *)
Lemma split_of_join (F : list str) :
  F <> [] ->
  (forall f, In f F -> contains hashes f = false) ->
  text2textlist default_break (textlist2text default_break F)
  = Some (map strip F).
Proof.
  intros Hne Hall. destruct F as [|f F]; [congruence|].
  unfold text2textlist, textlist2text. rewrite breaker_default.
  change (split hashes (join default_break (f :: F)))
    with (Some (split_go hashes 0 ([] ++ join default_break (f :: F)))).
  cbv beta iota. f_equal.
  apply (split_join_pieces F f [] (or_introl eq_refl)).
  - apply Hall. left. reflexivity.
  - apply Forall_forall. intros g Hg. apply Hall. right. exact Hg.
Qed.

(** X10: end to end through a backend that hands the joined text back
    untouched: when the instance has the delimiter of [__init__], at
    most one hook, and no fragment holds ["###"], [translate] returns
    every fragment stripped of its surrounding white space and passed
    through the hook, in the order given. *)
Theorem translate_echo_roundtrip (text_is_empty : text -> bool)
    (chs2cht : str -> str) (user_hook : nat -> str -> str) (B : backend)
    (self : translator) (F : list str) :
  concate_text B = true ->
  textblk_break self = default_break ->
  text_is_empty (Lst F) = false ->
  F <> [] ->
  (forall f, In f F -> contains hashes f = false) ->
  _translate B self (Str (textlist2text default_break F))
  = inr (Some (Str (textlist2text default_break F))) ->
  List.length (postprocess_hooks self) <= 1 ->
  outcome (translate text_is_empty chs2cht user_hook B (Lst F) self)
  = inr (Lst (map (fun f =>
                     compose_hooks chs2cht user_hook self
                       (postprocess_hooks self) (strip f))
                F)).
Proof.
  intros Hc Hbrk Hne HF Hall Hb Hone.
  pose proof (split_of_join F HF Hall) as Hs.
  rewrite <- Hbrk in Hb, Hs.
  rewrite (translate_concat_returns text_is_empty chs2cht user_hook B self F
             _ (map strip F) Hc Hne Hb Hs (length_map strip F)).
  do 2 f_equal. rewrite map_map. apply map_ext. intros f.
  apply single_hook_composes. exact Hone.
Qed.

Lemma translate_echo_roundtrip_witness :
  outcome (translate text_is_empty_spec no_conversion sample_hook echo_backend
             (Lst [lit " a"; lit "b #2 "]) one_hook_instance)
  = inr (Lst [lit "a1"; lit "b #21"]).
Proof.
  apply (translate_echo_roundtrip text_is_empty_spec no_conversion sample_hook
           echo_backend one_hook_instance [lit " a"; lit "b #2 "]).
  - reflexivity.
  - reflexivity.
  - reflexivity.
  - discriminate.
  - intros f [<-|[<-|[]]]; reflexivity.
  - reflexivity.
  - simpl. lia.
Defined.

(** ** More on construction *)

Section ConstructionMore.

Variable module_dict : list (str * nat).
Variable B : backend.

Local Abbreviation construct' := (construct module_dict B).
Local Abbreviation start := (before_setup B module_dict).

(** The two setters in a row, as [__init__] calls them. *)
Lemma set_both_run (lang_source' lang_target' : str) (self : translator) :
  (set_source lang_source' ;;; set_target lang_target') self
  = if mem lang_source' (valid_lang_list self)
    then
      if mem lang_target' (valid_lang_list self)
      then mkRun (inr tt)
             (set_lang_target lang_target' (set_lang_source lang_source' self))
             []
      else mkRun (inl (InvalidSourceOrTargetLanguage
                         (lit "Invalid target: " ++ lang_target' ++ [LF])
                         (join [LF] (valid_lang_list self))))
             (set_lang_source lang_source' self) []
    else mkRun (inl (InvalidSourceOrTargetLanguage
                       (lit "Invalid source: " ++ lang_source' ++ [LF])
                       (join [LF] (valid_lang_list self))))
           self [].
Proof.
  destruct (mem lang_source' (valid_lang_list self)) eqn:Es.
  - rewrite (bind_returns _ _ self (set_lang_source lang_source' self) tt).
    + rewrite set_target_run. reflexivity.
    + rewrite set_source_run. unfold supported_src_list. rewrite Es.
      reflexivity.
  - apply bind_raises. rewrite set_source_run. unfold supported_src_list.
    rewrite Es. reflexivity.
Qed.

Lemma fallback_empty (self : translator) :
  valid_lang_list self = [] ->
  (self' <- get ;;
   lang_source <- first_item (supported_src_list self') ;;
   self'' <- get ;;
   lang_target <- first_item (supported_tgt_list self'') ;;
   set_source lang_source ;;; set_target lang_target) self
  = mkRun (inl IndexError) self [].
Proof.
  intros V. rewrite bind_get. unfold supported_src_list at 1. rewrite V.
  apply bind_raises. reflexivity.
Qed.

Lemma finish_run (self : translator) :
  (if cht_require_convert B
   then register_postprocess_hooks (ArgCallable Chs2cht)
   else ret tt) self
  = mkRun (inr tt) (with_conversion_hook B self) [].
Proof.
  unfold with_conversion_hook. destruct (cht_require_convert B).
  - rewrite register_postprocess_hooks_run. reflexivity.
  - reflexivity.
Qed.

(** What construction gives once the setup has returned. *)
Lemma construct_after_setup (lang_source' lang_target' : str) (r : bool)
    (kwargs : dict value) (after_setup : translator) :
  _setup_translator B (start lang_source' lang_target' kwargs)
  = inr after_setup ->
  let valid := valid_langs (lang_map after_setup) in
  let checked := set_valid_lang_list valid after_setup in
  construct' lang_source' lang_target' r kwargs
  = if mem lang_source' valid && mem lang_target' valid
    then inr (with_conversion_hook B
                (set_lang_target lang_target'
                   (set_lang_source lang_source' checked)))
    else
      if r
      then inl (InvalidSourceOrTargetLanguage
                  (if mem lang_source' valid
                   then lit "Invalid target: " ++ lang_target' ++ [LF]
                   else lit "Invalid source: " ++ lang_source' ++ [LF])
                  (join [LF] valid))
      else
        match valid with
        | [] => inl IndexError
        | first :: _ =>
            inr (with_conversion_hook B
                   (set_lang_target first
                      (set_lang_source first
                         (if mem lang_source' valid
                          then set_lang_source lang_source' checked
                          else checked))))
        end.
Proof.
  intros Hsetup valid checked.
  assert (V : valid_lang_list checked = valid) by reflexivity.
  unfold construct, __init__, BaseModule_init.
  rewrite !bind_modify.
  change (set_postprocess_hooks [] _)
    with (start lang_source' lang_target' kwargs).
  rewrite (bind_returns _ _ (start lang_source' lang_target' kwargs)
             after_setup tt).
  2:{ apply try_except_returns. unfold setup_translator.
      rewrite Hsetup. reflexivity. }
  rewrite bind_modify. fold valid. fold checked.
  pose proof (set_both_run lang_source' lang_target' checked) as Hboth.
  rewrite V in Hboth.
  destruct (mem lang_source' valid) eqn:Es;
    [destruct (mem lang_target' valid) eqn:Et|]; cbn [andb].
  - (* both languages are valid *)
    rewrite (bind_returns _ _ checked
               (set_lang_target lang_target'
                  (set_lang_source lang_source' checked)) tt).
    + rewrite finish_run. reflexivity.
    + apply try_except_returns. exact Hboth.
  - (* the target is not *)
    destruct r.
    + rewrite (bind_raises _ _ checked (set_lang_source lang_source' checked)
                 (InvalidSourceOrTargetLanguage
                    (lit "Invalid target: " ++ lang_target' ++ [LF])
                    (join [LF] valid)) []); [reflexivity|].
      rewrite (try_except_raises _ _ _ _ _ Hboth). reflexivity.
    + destruct valid as [|first rest] eqn:Ev.
      * rewrite (bind_raises _ _ checked
                   (set_lang_source lang_source' checked) IndexError []);
          [reflexivity|].
        rewrite (try_except_raises _ _ _ _ _ Hboth). cbv beta iota.
        apply fallback_empty. exact V.
      * rewrite (bind_returns _ _ checked
                   (set_lang_target first
                      (set_lang_source first
                         (set_lang_source lang_source' checked))) tt).
        -- rewrite finish_run. reflexivity.
        -- rewrite (try_except_raises _ _ _ _ _ Hboth). cbv beta iota.
           apply (fallback_run _ first rest). exact V.
  - (* the source is not *)
    destruct r.
    + rewrite (bind_raises _ _ checked checked
                 (InvalidSourceOrTargetLanguage
                    (lit "Invalid source: " ++ lang_source' ++ [LF])
                    (join [LF] valid)) []); [reflexivity|].
      rewrite (try_except_raises _ _ _ _ _ Hboth). reflexivity.
    + destruct valid as [|first rest] eqn:Ev.
      * rewrite (bind_raises _ _ checked checked IndexError []);
          [reflexivity|].
        rewrite (try_except_raises _ _ _ _ _ Hboth). cbv beta iota.
        apply fallback_empty. exact V.
      * rewrite (bind_returns _ _ checked
                   (set_lang_target first (set_lang_source first checked)) tt).
        -- rewrite finish_run. reflexivity.
        -- rewrite (try_except_raises _ _ _ _ _ Hboth). cbv beta iota.
           apply (fallback_run _ first rest). exact V.
Qed.

Lemma with_conversion_hook_fields (self : translator) :
  lang_source (with_conversion_hook B self) = lang_source self
  /\ lang_target (with_conversion_hook B self) = lang_target self
  /\ valid_lang_list (with_conversion_hook B self) = valid_lang_list self
  /\ postprocess_hooks (with_conversion_hook B self)
     = if cht_require_convert B
       then oset_add Chs2cht (postprocess_hooks self)
       else postprocess_hooks self.
Proof.
  unfold with_conversion_hook. destruct (cht_require_convert B);
    repeat split.
Qed.

(** X11: an instance that construction returns holds the hooks the
    setup left, with the script conversion hook added behind them
    when, and only when, the class sets [cht_require_convert]. *)
Theorem construct_conversion_hook (lang_source' lang_target' : str)
    (r : bool) (kwargs : dict value) (after_setup self : translator) :
  _setup_translator B (start lang_source' lang_target' kwargs)
  = inr after_setup ->
  construct' lang_source' lang_target' r kwargs = inr self ->
  postprocess_hooks self
  = (if cht_require_convert B
     then oset_add Chs2cht (postprocess_hooks after_setup)
     else postprocess_hooks after_setup)
  /\ (cht_require_convert B = true -> In Chs2cht (postprocess_hooks self)).
Proof.
  intros Hsetup.
  rewrite (construct_after_setup lang_source' lang_target' r kwargs
             after_setup Hsetup). cbv zeta.
  assert (Hgoal : forall s,
             postprocess_hooks s = postprocess_hooks after_setup ->
             @inr exn translator (with_conversion_hook B s) = inr self ->
             postprocess_hooks self
             = (if cht_require_convert B
                then oset_add Chs2cht (postprocess_hooks after_setup)
                else postprocess_hooks after_setup)
             /\ (cht_require_convert B = true ->
                 In Chs2cht (postprocess_hooks self))).
  { intros s Hs E. injection E as <-.
    destruct (with_conversion_hook_fields s) as (_ & _ & _ & Hh).
    rewrite Hh, Hs. split; [reflexivity|]. intros ->.
    apply oset_add_In. right. reflexivity. }
  destruct (mem lang_source' (valid_langs (lang_map after_setup)));
    destruct (mem lang_target' (valid_langs (lang_map after_setup)));
    cbn [andb]; try (apply Hgoal; reflexivity);
    destruct r; try discriminate;
    destruct (valid_langs (lang_map after_setup)); try discriminate;
    apply Hgoal; reflexivity.
Qed.

(** X12: the current source and target languages of an instance that
    construction returns are among its supported languages, whether the
    requested ones were kept or the fallback took their place. *)
Theorem construct_langs_valid (lang_source' lang_target' : str) (r : bool)
    (kwargs : dict value) (self : translator) :
  construct' lang_source' lang_target' r kwargs = inr self ->
  In (lang_source self) (supported_src_list self)
  /\ In (lang_target self) (supported_tgt_list self).
Proof.
  destruct (_setup_translator B (start lang_source' lang_target' kwargs))
    as [e|after_setup] eqn:Hsetup.
  { unfold construct.
    rewrite (init_setup_raises module_dict B lang_source' lang_target' r
               kwargs e Hsetup). discriminate. }
  rewrite (construct_after_setup lang_source' lang_target' r kwargs
             after_setup Hsetup). cbv zeta.
  unfold supported_src_list, supported_tgt_list.
  assert (Hgoal : forall s,
             In (lang_source s) (valid_lang_list s) ->
             In (lang_target s) (valid_lang_list s) ->
             @inr exn translator (with_conversion_hook B s) = inr self ->
             In (lang_source self) (valid_lang_list self)
             /\ In (lang_target self) (valid_lang_list self)).
  { intros s Hs Ht E. injection E as <-.
    destruct (with_conversion_hook_fields s) as (-> & -> & -> & _).
    split; assumption. }
  destruct (mem lang_source' (valid_langs (lang_map after_setup))) eqn:Es;
    destruct (mem lang_target' (valid_langs (lang_map after_setup))) eqn:Et;
    cbn [andb].
  - apply Hgoal; apply mem_In; assumption.
  - destruct r; [discriminate|].
    destruct (valid_langs (lang_map after_setup)) as [|first rest];
      [discriminate|].
    apply Hgoal; left; reflexivity.
  - destruct r; [discriminate|].
    destruct (valid_langs (lang_map after_setup)) as [|first rest];
      [discriminate|].
    apply Hgoal; left; reflexivity.
  - destruct r; [discriminate|].
    destruct (valid_langs (lang_map after_setup)) as [|first rest];
      [discriminate|].
    apply Hgoal; left; reflexivity.
Qed.

(** X14: when the setup has returned and a requested language is not
    valid, a construction that is to raise raises
    [InvalidSourceOrTargetLanguage] with the valid languages as its
    message, naming the source when it is the source that is not valid,
    and the target otherwise. *)
Theorem construct_rejects_language (lang_source' lang_target' : str)
    (kwargs : dict value) (after_setup : translator) :
  _setup_translator B (start lang_source' lang_target' kwargs)
  = inr after_setup ->
  ~ In lang_source' (valid_langs (lang_map after_setup))
  \/ ~ In lang_target' (valid_langs (lang_map after_setup)) ->
  construct' lang_source' lang_target' true kwargs
  = inl (InvalidSourceOrTargetLanguage
           (if mem lang_source' (valid_langs (lang_map after_setup))
            then lit "Invalid target: " ++ lang_target' ++ [LF]
            else lit "Invalid source: " ++ lang_source' ++ [LF])
           (join [LF] (valid_langs (lang_map after_setup)))).
Proof.
  intros Hsetup Hbad.
  rewrite (construct_after_setup lang_source' lang_target' true kwargs
             after_setup Hsetup). cbv zeta.
  destruct (mem lang_source' (valid_langs (lang_map after_setup))) eqn:Es;
    destruct (mem lang_target' (valid_langs (lang_map after_setup))) eqn:Et;
    cbn [andb]; try reflexivity.
  apply mem_In in Es, Et. tauto.
Qed.

(** X15: when the setup has returned and both requested languages are
    valid, construction succeeds whatever [raise_unsupported_lang] is,
    and the instance has the requested languages and the valid
    languages of the catalog as its supported ones. *)
Theorem construct_keeps_requested (lang_source' lang_target' : str)
    (r : bool) (kwargs : dict value) (after_setup : translator) :
  _setup_translator B (start lang_source' lang_target' kwargs)
  = inr after_setup ->
  In lang_source' (valid_langs (lang_map after_setup)) ->
  In lang_target' (valid_langs (lang_map after_setup)) ->
  exists self,
    construct' lang_source' lang_target' r kwargs = inr self
    /\ lang_source self = lang_source'
    /\ lang_target self = lang_target'
    /\ supported_languages self = valid_langs (lang_map after_setup).
Proof.
  intros Hsetup Hs Ht.
  rewrite (construct_after_setup lang_source' lang_target' r kwargs
             after_setup Hsetup). cbv zeta.
  apply mem_In in Hs, Ht. rewrite Hs, Ht. cbn [andb].
  eexists. split; [reflexivity|].
  unfold supported_languages.
  match goal with
  | |- context [with_conversion_hook B ?s] =>
      destruct (with_conversion_hook_fields s) as (-> & -> & -> & _)
  end.
  repeat split.
Qed.

End ConstructionMore.

(** X13: a call of a setter, accepted or refused, leaves the current
    languages among the supported ones when they were. *)
Theorem setters_keep_langs_valid (self : translator) (lang : str) :
  langs_valid self ->
  langs_valid (self_after (set_source lang self))
  /\ langs_valid (self_after (set_target lang self)).
Proof.
  intros [Hs Ht]. rewrite set_source_run, set_target_run.
  unfold supported_src_list, supported_tgt_list.
  destruct (mem lang (valid_lang_list self)) eqn:E.
  - apply mem_In in E. repeat split; assumption.
  - repeat split; assumption.
Qed.

Lemma construct_conversion_hook_witness :
  postprocess_hooks converted_instance = [Chs2cht]
  /\ In Chs2cht (postprocess_hooks converted_instance).
Proof.
  destruct (construct_conversion_hook [] converting_backend
              (lit "English") (lit "English") true []
              (set_lang_map (dict_set LANGMAP_GLOBAL (lit "English") (lit "en"))
                 (before_setup converting_backend [] (lit "English")
                    (lit "English") []))
              converted_instance) as [H1 H2].
  - reflexivity.
  - vm_compute. reflexivity.
  - split; [exact H1 | apply H2; reflexivity].
Defined.

Lemma construct_langs_valid_witness :
  In (lang_source english_instance) (supported_src_list english_instance)
  /\ In (lang_target english_instance) (supported_tgt_list english_instance).
Proof.
  apply (construct_langs_valid [] upper_backend (lit "Klingon") (lit "English")
           false [] english_instance).
  vm_compute. reflexivity.
Defined.

Lemma setters_keep_langs_valid_witness :
  langs_valid (self_after (set_source (lit "Klingon") english_instance))
  /\ langs_valid (self_after (set_target (lit "Klingon") english_instance)).
Proof.
  apply (setters_keep_langs_valid english_instance).
  split; left; reflexivity.
Defined.

Lemma construct_rejects_language_witness :
  construct [] upper_backend (lit "English") (lit "Klingon") true []
  = inl (InvalidSourceOrTargetLanguage
           (lit "Invalid target: Klingon" ++ [LF]) (lit "English")).
Proof.
  apply (construct_rejects_language [] upper_backend
           (lit "English") (lit "Klingon") []
           (set_lang_map (dict_set LANGMAP_GLOBAL (lit "English") (lit "en"))
              (before_setup upper_backend [] (lit "English") (lit "Klingon") []))).
  - reflexivity.
  - right. apply mem_not_In. vm_compute. reflexivity.
Defined.

Lemma construct_keeps_requested_witness :
  exists self,
    construct [] upper_backend (lit "English") (lit "English") false []
    = inr self
    /\ lang_source self = lit "English"
    /\ lang_target self = lit "English"
    /\ supported_languages self
       = valid_langs (dict_set LANGMAP_GLOBAL (lit "English") (lit "en")).
Proof.
  apply (construct_keeps_requested [] upper_backend
           (lit "English") (lit "English") false []
           (set_lang_map (dict_set LANGMAP_GLOBAL (lit "English") (lit "en"))
              (before_setup upper_backend [] (lit "English") (lit "English") []))).
  - reflexivity.
  - apply mem_In. vm_compute. reflexivity.
  - apply mem_In. vm_compute. reflexivity.
Defined.

Lemma construct_in_step_witness : catalog_in_step english_instance.
Proof.
  apply (construct_in_step [] upper_backend (lit "English") (lit "English")
           true [] english_instance).
  - intros s1 H. injection H as <-. apply distinct_NoDup.
    vm_compute. reflexivity.
  - vm_compute. reflexivity.
Defined.

(** ** The record adapter *)

Section AdapterMore.

Variable text_is_empty : text -> bool.
Variable chs2cht : str -> str.
Variable user_hook : nat -> str -> str.
Variable user_hook_blk : nat -> textblock -> str -> str.
Variable B : backend.

Local Abbreviation translate' := (translate text_is_empty chs2cht user_hook B).
Local Abbreviation adapter :=
  (translate_textblk_lst text_is_empty chs2cht user_hook user_hook_blk B).
Local Abbreviation write := (write_translations chs2cht user_hook_blk).
Local Abbreviation written' := (written chs2cht user_hook_blk).
Local Abbreviation composed := (compose_hooks_blk chs2cht user_hook_blk).

Lemma call_hook_blk_run (cb : callback) (tr : str) (blk : textblock)
    (self : translator) :
  call_hook_blk chs2cht user_hook_blk cb tr blk self
  = mkRun (inr (hook_value_blk chs2cht user_hook_blk self blk cb tr)) self
      [CallHook cb tr].
Proof. destruct cb; reflexivity. Qed.

Lemma hooks_on_block_run (hooks : list callback) (blk : textblock) :
  forall (tr : str) (self : translator),
    outcome (hooks_on_block chs2cht user_hook_blk hooks tr blk self)
    = inr (composed self blk hooks tr)
    /\ self_after (hooks_on_block chs2cht user_hook_blk hooks tr blk self)
       = self
    /\ (forall cb,
          hook_calls cb
            (calls (hooks_on_block chs2cht user_hook_blk hooks tr blk self))
          = List.length (filter (callback_eqb cb) hooks))
    /\ backend_events
         (calls (hooks_on_block chs2cht user_hook_blk hooks tr blk self)) = [].
Proof.
  induction hooks as [|c hooks IH]; intros tr self.
  - repeat split.
  - destruct (IH (hook_value_blk chs2cht user_hook_blk self blk c tr) self)
      as (Ho & Hs & Hc & Hb).
    simpl. unfold bind. rewrite call_hook_blk_run. simpl.
    repeat split; [exact Ho | exact Hs | | exact Hb].
    intros cb. unfold hook_calls in *. simpl.
    destruct (callback_eqb cb c); simpl; rewrite Hc; reflexivity.
Qed.

(** The loop over the pairs of a translation and a block. *)
Lemma write_translations_run (translations : list str) :
  forall (textblk_lst : list textblock) (self : translator),
    outcome (write translations textblk_lst self)
    = inr (written' self translations textblk_lst)
    /\ self_after (write translations textblk_lst self) = self
    /\ (forall cb,
          hook_calls cb (calls (write translations textblk_lst self))
          = Nat.min (List.length translations) (List.length textblk_lst)
            * List.length (filter (callback_eqb cb) (postprocess_hooks self)))
    /\ backend_events (calls (write translations textblk_lst self)) = [].
Proof.
  induction translations as [|tr translations IH]; intros textblk_lst self.
  - repeat split.
  - destruct textblk_lst as [|blk textblk_lst]; [repeat split|].
    destruct (hooks_on_block_run (postprocess_hooks self) blk tr self)
      as (Ho & Hs & Hc & Hb).
    destruct (IH textblk_lst self) as (Ho' & Hs' & Hc' & Hb').
    cbn [write_translations]. rewrite bind_get. unfold bind.
    rewrite Ho. cbn [outcome self_after calls]. rewrite Hs, Ho'.
    cbn [outcome self_after calls ret]. rewrite Hs'.
    split; [reflexivity|]. split; [reflexivity|]. split.
    + intros cb. rewrite app_nil_r, hook_calls_app, Hc, Hc'.
      cbn [List.length Nat.min]. lia.
    + rewrite app_nil_r. unfold backend_events in *.
      rewrite filter_app, Hb, Hb'. reflexivity.
Qed.

Lemma written_shape (self : translator) (translations : list str) :
  forall textblk_lst,
    List.length (written' self translations textblk_lst)
    = List.length textblk_lst
    /\ map get_text (written' self translations textblk_lst)
       = map get_text textblk_lst.
Proof.
  induction translations as [|tr translations IH]; intros [|blk textblk_lst];
    try (split; reflexivity).
  destruct (IH textblk_lst) as [Hl Ht]. simpl. rewrite Hl, Ht.
  split; reflexivity.
Qed.

Lemma written_for_each (self : translator) (translations : list str) :
  forall textblk_lst,
    List.length translations = List.length textblk_lst ->
    written' self translations textblk_lst
    = map (fun p =>
             set_translation
               (composed self (snd p) (postprocess_hooks self) (fst p))
               (snd p))
        (combine translations textblk_lst).
Proof.
  induction translations as [|tr translations IH]; intros [|blk textblk_lst] H;
    try reflexivity; try discriminate.
  simpl. rewrite IH; [reflexivity|]. simpl in H. lia.
Qed.

(** X17: when [translate_textblk_lst] returns, the blocks are as many
    as before and hold the texts they held: their translations alone
    were assigned. *)
Theorem adapter_keeps_blocks (self : translator)
    (textblk_lst result : list textblock) :
  outcome (adapter textblk_lst self) = inr result ->
  List.length result = List.length textblk_lst
  /\ map get_text result = map get_text textblk_lst.
Proof.
  unfold translate_textblk_lst, bind.
  destruct (outcome (translate' (Lst (map get_text textblk_lst)) self))
    as [e|out]; [discriminate|].
  cbn [outcome].
  destruct (write_translations_run (items out) textblk_lst
              (self_after (translate' (Lst (map get_text textblk_lst)) self)))
    as (Ho & _).
  rewrite Ho. intros H. injection H as <-. apply written_shape.
Qed.

(** X18: through [translate_textblk_lst] every registered hook is
    called twice for each block whose text went to the backend: once by
    [translate] on the fragment, and once more, with the block, on what
    [translate] returned. *)
Theorem adapter_calls_hooks_twice (self : translator)
    (textblk_lst result : list textblock) (cb : callback) :
  text_is_empty (Lst (map get_text textblk_lst)) = false ->
  NoDup (postprocess_hooks self) ->
  In cb (postprocess_hooks self) ->
  outcome (adapter textblk_lst self) = inr result ->
  hook_calls cb (calls (adapter textblk_lst self))
  = 2 * List.length textblk_lst.
Proof.
  intros Hne Hnd Hin. unfold translate_textblk_lst, bind.
  pose proof (translate_self_unchanged text_is_empty chs2cht user_hook B self
                (Lst (map get_text textblk_lst))) as Hself.
  destruct (outcome (translate' (Lst (map get_text textblk_lst)) self))
    as [e|out] eqn:Hout; [discriminate|].
  cbn [outcome calls]. intros _.
  rewrite hook_calls_app, Hself.
  rewrite (translate_hook_calls text_is_empty chs2cht user_hook B self
             (Lst (map get_text textblk_lst)) out cb Hne Hout).
  destruct (write_translations_run (items out) textblk_lst self)
    as (_ & _ & Hc & _).
  rewrite Hc.
  rewrite (translate_items_length text_is_empty chs2cht user_hook B self
             (map get_text textblk_lst) out Hout).
  rewrite (count_in_set cb _ Hnd Hin), length_map, Nat.min_id. lia.
Qed.

(** X19: when the texts of the blocks are recognized as empty, nothing
    goes to the backend, and yet every block gets a translation: its own
    text passed through the hooks, called with the block, in insertion
    order. *)
Theorem adapter_empty_texts (self : translator)
    (textblk_lst : list textblock) :
  text_is_empty (Lst (map get_text textblk_lst)) = true ->
  outcome (adapter textblk_lst self)
  = inr (map (fun blk =>
                set_translation
                  (composed self blk (postprocess_hooks self) (get_text blk))
                  blk)
           textblk_lst)
  /\ self_after (adapter textblk_lst self) = self
  /\ backend_events (calls (adapter textblk_lst self)) = [].
Proof.
  intros He. unfold translate_textblk_lst.
  assert (Ht : translate' (Lst (map get_text textblk_lst)) self
               = mkRun (inr (Lst (map get_text textblk_lst))) self []).
  { unfold translate. rewrite He. reflexivity. }
  rewrite (bind_returns _ _ self self _ Ht). cbn [items].
  destruct (write_translations_run (map get_text textblk_lst) textblk_lst self)
    as (Ho & Hs & _ & Hb).
  rewrite Ho, Hs, Hb. split; [|split; reflexivity].
  f_equal. rewrite written_for_each by apply length_map.
  clear. induction textblk_lst as [|blk l IH]; [reflexivity|].
  simpl. rewrite IH. reflexivity.
Qed.

(** X20: with no hook registered, the blocks get what [translate]
    returned for their texts, one item each, in order. *)
Theorem adapter_without_hooks (self : translator)
    (textblk_lst : list textblock) (out : list str) :
  postprocess_hooks self = [] ->
  outcome (translate' (Lst (map get_text textblk_lst)) self) = inr (Lst out) ->
  exists result,
    outcome (adapter textblk_lst self) = inr result
    /\ map translation result = out
    /\ map get_text result = map get_text textblk_lst.
Proof.
  intros Hh Hout. unfold translate_textblk_lst, bind.
  pose proof (translate_self_unchanged text_is_empty chs2cht user_hook B self
                (Lst (map get_text textblk_lst))) as Hself.
  pose proof (translate_items_length text_is_empty chs2cht user_hook B self
                (map get_text textblk_lst) (Lst out) Hout) as Hlen.
  rewrite Hout, Hself. cbn [outcome items].
  destruct (write_translations_run out textblk_lst self) as (Ho & _).
  rewrite Ho. eexists. split; [reflexivity|].
  split; [|apply written_shape].
  cbn [items] in Hlen. rewrite length_map in Hlen.
  clear Ho Hout Hself. revert textblk_lst Hlen.
  induction out as [|tr out IH]; intros [|blk l] Hlen;
    try reflexivity; try discriminate.
  simpl. unfold compose_hooks_blk at 1. rewrite Hh. simpl.
  f_equal. apply IH. simpl in Hlen. lia.
Qed.

End AdapterMore.

Lemma adapter_keeps_blocks_witness :
  List.length
    [mkBlock (lit "a") (lit "a:a:A212"); mkBlock (lit "b") (lit "b:b:B212")]
  = 2
  /\ map get_text
       [mkBlock (lit "a") (lit "a:a:A212"); mkBlock (lit "b") (lit "b:b:B212")]
     = [lit "a"; lit "b"].
Proof.
  apply (adapter_keeps_blocks text_is_empty_spec no_conversion sample_hook
           sample_hook_blk upper_backend two_hook_instance
           [mkBlock (lit "a") []; mkBlock (lit "b") []]).
  vm_compute. reflexivity.
Defined.

Lemma adapter_calls_hooks_twice_witness :
  hook_calls (UserHook 1)
    (calls (translate_textblk_lst text_is_empty_spec no_conversion sample_hook
              sample_hook_blk upper_backend
              [mkBlock (lit "a") []; mkBlock (lit "b") []] two_hook_instance))
  = 4.
Proof.
  apply (adapter_calls_hooks_twice text_is_empty_spec no_conversion sample_hook
           sample_hook_blk upper_backend two_hook_instance
           [mkBlock (lit "a") []; mkBlock (lit "b") []]
           [mkBlock (lit "a") (lit "a:a:A212");
            mkBlock (lit "b") (lit "b:b:B212")]).
  - reflexivity.
  - simpl. repeat constructor; simpl; intuition discriminate.
  - right. left. reflexivity.
  - vm_compute. reflexivity.
Defined.

Lemma adapter_empty_texts_witness :
  outcome (translate_textblk_lst text_is_blank no_conversion sample_hook
             sample_hook_blk upper_backend
             [mkBlock (lit " ") (lit "old")] one_hook_instance)
  = inr [mkBlock (lit " ") (lit " : 1")].
Proof.
  refine (proj1 (adapter_empty_texts text_is_blank no_conversion
                   sample_hook sample_hook_blk upper_backend one_hook_instance
                   [mkBlock (lit " ") (lit "old")] _)).
  reflexivity.
Defined.

Lemma adapter_without_hooks_witness :
  exists result,
    outcome (translate_textblk_lst text_is_empty_spec no_conversion sample_hook
               sample_hook_blk upper_backend
               [mkBlock (lit "a") []; mkBlock (lit "b") []] english_instance)
    = inr result
    /\ map translation result = [lit "A"; lit "B"]
    /\ map get_text result = [lit "a"; lit "b"].
Proof.
  apply (adapter_without_hooks text_is_empty_spec no_conversion sample_hook
           sample_hook_blk upper_backend english_instance
           [mkBlock (lit "a") []; mkBlock (lit "b") []] [lit "A"; lit "B"]).
  - reflexivity.
  - reflexivity.
Defined.

(** ** The script conversion hook *)

(** X21: with the script conversion hook as the only hook, [translate]
    on a single string returns the backend's answer converted when the
    current target language is traditional Chinese, and the backend's
    answer as it is for any other target; the target that counts is the
    one at the time of the call. *)
Theorem translate_converts_for_target (text_is_empty : text -> bool)
    (chs2cht : str -> str) (user_hook : nat -> str -> str) (B : backend)
    (self : translator) (s s' : str) :
  postprocess_hooks self = [Chs2cht] ->
  text_is_empty (Str s) = false ->
  _translate B self (Str s) = inr (Some (Str s')) ->
  (lang_target self = TRADITIONAL_CHINESE ->
   outcome (translate text_is_empty chs2cht user_hook B (Str s) self)
   = inr (Str (chs2cht s')))
  /\ (lang_target self <> TRADITIONAL_CHINESE ->
      outcome (translate text_is_empty chs2cht user_hook B (Str s) self)
      = inr (Str s')).
Proof.
  intros Hh Hne Hb.
  assert (E : outcome (translate text_is_empty chs2cht user_hook B (Str s) self)
              = inr (Str (_chs2cht chs2cht self s'))).
  { unfold translate. rewrite Hne. unfold bind, call_translate; simpl.
    rewrite Hb. simpl. rewrite Hh. reflexivity. }
  rewrite E. unfold _chs2cht. split.
  - intros Ht. rewrite (proj2 (eqb_eq _ _) Ht). reflexivity.
  - intros Ht. destruct (PyStr.eqb (lang_target self) TRADITIONAL_CHINESE) eqn:Eq;
      [|reflexivity].
    apply eqb_eq in Eq. contradiction.
Qed.

Lemma translate_converts_for_target_witness :
  outcome (translate text_is_empty_spec marking_conversion sample_hook
             echo_backend (Str (lit "a")) converted_instance)
  = inr (Str (lit "a"))
  /\ outcome (translate text_is_empty_spec marking_conversion sample_hook
                echo_backend (Str (lit "a"))
                (set_lang_target TRADITIONAL_CHINESE converted_instance))
     = inr (Str (lit "cht:a")).
Proof.
  split.
  - refine (proj2 (translate_converts_for_target text_is_empty_spec
                     marking_conversion sample_hook echo_backend
                     converted_instance (lit "a") (lit "a")
                     eq_refl eq_refl eq_refl) _).
    discriminate.
  - refine (proj1 (translate_converts_for_target text_is_empty_spec
                     marking_conversion sample_hook echo_backend
                     (set_lang_target TRADITIONAL_CHINESE converted_instance)
                     (lit "a") (lit "a") eq_refl eq_refl eq_refl) _).
    reflexivity.
Defined.
